(** * Bulk image downloader: the processing and retrieval routes

    A shallow embedding of [src/app/api/process/route.ts] (the streamed
    POST handler with [searchBingImages] and [downloadImage]), of
    [src/app/api/download/route.ts] (the one-shot GET handler) and of the
    submission handler of [src/app/page.tsx], which reads the stream.

    Boundary of the model.  The handlers talk to the network (axios), to an
    HTML parser (cheerio), to a spreadsheet parser (XLSX), to the archiver
    and to the host file system.  Network answers, parsed markup, the parsed
    workbook and the archiver's outcome are data of the environment record
    [Env] or of the request; the file system is a state component mapping
    absolute paths to directories and files.  The failures that are modelled
    are those the source reacts to: a rejected [axios.get], a throwing
    [formData] or [XLSX.read], a [writeFileSync] whose parent directory is
    missing, an archiver ['error'] event, a removal the host refuses, and a
    write or close on an already closed stream writer.  The temporary
    directory of the host is taken to be usable, so [mkdirSync] with
    [recursive] does not fail.  The handler runs as one sequential
    computation, each [await] being a step of it, and the client reads the
    stream to its end.  Strings are byte strings; integral spreadsheet
    cells are rendered in plain decimal. *)

From Stdlib Require Import ZArith Ascii String List Lia Bool.
From stdpp Require Import base option list gmap sets strings pretty.
Import ListNotations.


Local Open Scope Z_scope.

(** ** JavaScript string primitives used by the routes *)

Module JsString.

Definition chars (s : string) : list ascii := list_ascii_of_string s.
Definition of_chars (l : list ascii) : string := string_of_list_ascii l.

(** [s.startsWith(p)] *)
Fixpoint startsWith (p s : string) : bool :=
  match p, s with
  | EmptyString, _ => true
  | String a p', String b s' => if Ascii.eqb a b then startsWith p' s' else false
  | String _ _, EmptyString => false
  end.

(** [s.includes(sub)] *)
Fixpoint includes (sub s : string) : bool :=
  startsWith sub s ||
  match s with
  | EmptyString => false
  | String _ s' => includes sub s'
  end.

(** The remainder of [s] after the prefix [p], when [s] starts with [p]. *)
Fixpoint strip_prefix (p s : string) : option string :=
  match p, s with
  | EmptyString, _ => Some s
  | String a p', String b s' => if Ascii.eqb a b then strip_prefix p' s' else None
  | String _ _, EmptyString => None
  end.

(** [s.replace(/<pat>/g, by)] for a literal, non-empty pattern [pat]:
    the scan resumes after each replaced occurrence. *)
Fixpoint replace_all_fuel (fuel : nat) (pat by_ s : string) : string :=
  match fuel with
  | O => s
  | S fuel' =>
      match strip_prefix pat s with
      | Some rest => by_ +:+ replace_all_fuel fuel' pat by_ rest
      | None =>
          match s with
          | EmptyString => EmptyString
          | String c s' => String c (replace_all_fuel fuel' pat by_ s')
          end
      end
  end.

Definition replace_all (pat by_ s : string) : string :=
  match pat with
  | EmptyString => s
  | _ => replace_all_fuel (S (String.length s)) pat by_ s
  end.

(** [s.replace(/<class>/g, by)] for a one-character class. *)
Definition replace_class (cls : ascii -> bool) (by_ : string) (s : string) : string :=
  String.concat EmptyString (map (fun c => if cls c then by_ else String c EmptyString) (chars s)).

Definition is_slash (c : ascii) : bool :=
  Ascii.eqb c "/"%char || Ascii.eqb c "\"%char.

Definition is_alnum (c : ascii) : bool :=
  let n := N_of_ascii c in
  ((97 <=? n) && (n <=? 122) || (65 <=? n) && (n <=? 90) || (48 <=? n) && (n <=? 57))%N.

(** Splitting at every occurrence of a separator character, as
    [s.split(sep)] does: [n] separators give [n+1] pieces. *)
Fixpoint split_on (sep : ascii) (s : string) : list string :=
  match s with
  | EmptyString => [EmptyString]
  | String c s' =>
      if Ascii.eqb c sep then EmptyString :: split_on sep s'
      else match split_on sep s' with
           | [] => [String c EmptyString]
           | h :: t => String c h :: t
           end
  end.

Definition last_char (s : string) : option ascii := last (chars s).

End JsString.

(** ** Node's [path] module (POSIX flavour) *)

Module Path.
Import JsString.

Definition sep : string := "/".

(** [normalizeString]: walks the segments; empty segments and ["."] are
    dropped, [".."] removes the last kept segment unless there is none (or
    it is itself [".."]), in which case it is kept only when the path is
    relative.  The accumulator holds the kept segments, last one first. *)
Fixpoint normalize_segments (allowAboveRoot : bool) (acc : list string)
         (segs : list string) : list string :=
  match segs with
  | [] => rev acc
  | seg :: rest =>
      if String.eqb seg EmptyString || String.eqb seg "." then
        normalize_segments allowAboveRoot acc rest
      else if String.eqb seg ".." then
        match acc with
        | top :: acc' =>
            if String.eqb top ".." then
              normalize_segments allowAboveRoot
                (if allowAboveRoot then ".." :: acc else acc) rest
            else normalize_segments allowAboveRoot acc' rest
        | [] =>
            normalize_segments allowAboveRoot
              (if allowAboveRoot then [".."] else []) rest
        end
      else normalize_segments allowAboveRoot (seg :: acc) rest
  end.

Definition isAbsolute (p : string) : bool := startsWith sep p.

Definition has_trailing_sep (p : string) : bool :=
  match last_char p with
  | Some c => Ascii.eqb c "/"%char
  | None => false
  end.

(** [path.normalize] *)
Definition normalize (p : string) : string :=
  match p with
  | EmptyString => "."
  | _ =>
      let abs := isAbsolute p in
      let trailing := has_trailing_sep p in
      let body := String.concat sep
                    (normalize_segments (negb abs) [] (split_on "/"%char p)) in
      match body with
      | EmptyString => if abs then "/" else if trailing then "./" else "."
      | _ =>
          let body' := if trailing then body +:+ "/" else body in
          if abs then "/" +:+ body' else body'
      end
  end.

(** [path.join(...parts)]: the non-empty parts joined by the separator,
    then normalized. *)
Definition join (parts : list string) : string :=
  match filter (fun s => s <> EmptyString) parts with
  | [] => "."
  | ps => normalize (String.concat sep ps)
  end.

(** [path.dirname] of a normalized path. *)
Definition dirname (p : string) : string :=
  match rev (split_on "/"%char p) with
  | [] | [_] => "."
  | _ :: rinit =>
      match String.concat sep (rev rinit) with
      | EmptyString => "/"
      | d => d
      end
  end.

(** [p] names [dir] itself or something below it. *)
Definition is_within (dir p : string) : bool :=
  String.eqb p dir || startsWith (dir +:+ "/") p.

End Path.

(** ** JavaScript values and exceptions *)

Module Js.

(** A thrown value: an [Error] instance with its [message], or any other
    thrown value (for which [err instanceof Error] is false). *)
Inductive Exn : Type :=
| JsError (message : string)
| JsThrown (value : string).

(** [err instanceof Error ? err.message : fallback] *)
Definition message_or (fallback : string) (e : Exn) : string :=
  match e with
  | JsError m => m
  | JsThrown _ => fallback
  end.

(** A spreadsheet cell as [sheet_to_json] delivers it. *)
Inductive Cell : Type :=
| CStr (s : string)
| CNum (n : Z).

(** [String(row.key)]: a missing key reads as [undefined]. *)
Definition String_ (v : option Cell) : string :=
  match v with
  | None => "undefined"
  | Some (CStr s) => s
  | Some (CNum n) => pretty n
  end.

Definition Buffer : Type := list Byte.byte.

(** The string when the value is truthy: [undefined], [null] and the empty
    string are falsy. *)
Definition truthy (o : option string) : option string :=
  match o with
  | Some EmptyString | None => None
  | Some s => Some s
  end.

Definition dquote : ascii := Ascii false true false false false true false false.

Definition hex_digit (n : N) : ascii :=
  ascii_of_N (if (n <? 10)%N then 48 + n else 55 + n)%N.

(** Characters [encodeURIComponent] leaves alone. *)
Definition uri_unreserved (c : ascii) : bool :=
  JsString.is_alnum c ||
  existsb (Ascii.eqb c) (JsString.chars "-_.!~*'()").

(** [encodeURIComponent] on a UTF-8 byte string: every other byte
    becomes [%XX] with upper-case hexadecimal digits. *)
Definition encodeURIComponent (s : string) : string :=
  String.concat EmptyString
    (map (fun c =>
            if uri_unreserved c then String c EmptyString
            else String "%"%char
                   (String (hex_digit (N_of_ascii c / 16))
                      (String (hex_digit (N_of_ascii c mod 16)) EmptyString)))
         (JsString.chars s)).

End Js.

(** ** The host file system *)

Module Fs.
Import Js.

Inductive Node : Type :=
| Dir
| File (data : Buffer).

(** The entries by absolute path, and the paths whose removal the host
    refuses (busy or protected entries). *)
Record t : Type := mk {
  entries : gmap string Node;
  busy : gset string
}.

Definition is_dir (fs : t) (p : string) : bool :=
  match entries fs !! p with
  | Some Dir => true
  | _ => false
  end.

(** [fs.existsSync]: true for a file or a directory, never throws. *)
Definition existsSync (fs : t) (p : string) : bool :=
  bool_decide (is_Some (entries fs !! p)).

(** The absolute path itself and every directory above it. *)
Definition ancestors (p : string) : list string :=
  let segs := filter (fun s => s <> EmptyString) (JsString.split_on "/"%char p) in
  map (fun k => "/" +:+ String.concat "/" (take k segs)) (seq 0 (S (Datatypes.length segs))).

(** [fs.mkdirSync(p, { recursive: true })]: afterwards [p] and everything
    above it are directories.  The temporary directory of the host is
    taken to be usable, so the call does not fail. *)
Definition mkdirSync (fs : t) (p : string) : t :=
  mk (foldr (fun d m => <[d := Dir]> m) (entries fs) (p :: ancestors p)) (busy fs).

(** [fs.writeFileSync(p, data)]: creates or replaces the file; the parent
    has to be a directory and [p] must not be one. *)
Definition writeFileSync (fs : t) (p : string) (data : Buffer) : Exn + t :=
  if is_dir fs p then
    inl (JsError ("EISDIR: illegal operation on a directory, open '" +:+ p +:+ "'"))
  else if is_dir fs (Path.dirname p) then
    inr (mk (<[p := File data]> (entries fs)) (busy fs))
  else if existsSync fs (Path.dirname p) then
    inl (JsError ("ENOTDIR: not a directory, open '" +:+ p +:+ "'"))
  else
    inl (JsError ("ENOENT: no such file or directory, open '" +:+ p +:+ "'")).

(** [fs.readFileSync(p)] *)
Definition readFileSync (fs : t) (p : string) : Exn + Buffer :=
  match entries fs !! p with
  | Some (File data) => inr data
  | Some Dir => inl (JsError "EISDIR: illegal operation on a directory, read")
  | None => inl (JsError ("ENOENT: no such file or directory, open '" +:+ p +:+ "'"))
  end.

(** [fs.unlinkSync(p)] *)
Definition unlinkSync (fs : t) (p : string) : Exn + t :=
  match entries fs !! p with
  | Some (File _) =>
      if bool_decide (p ∈ busy fs) then
        inl (JsError ("EBUSY: resource busy or locked, unlink '" +:+ p +:+ "'"))
      else inr (mk (delete p (entries fs)) (busy fs))
  | Some Dir => inl (JsError ("EISDIR: illegal operation on a directory, unlink '" +:+ p +:+ "'"))
  | None => inl (JsError ("ENOENT: no such file or directory, unlink '" +:+ p +:+ "'"))
  end.

(** [fs.rmSync(p, { recursive: true, force: true })]: removes [p] and all
    below it; a missing [p] is not an error. *)
Definition rmSync (fs : t) (p : string) : Exn + t :=
  if bool_decide (p ∈ busy fs) then
    inl (JsError ("EBUSY: resource busy or locked, rm '" +:+ p +:+ "'"))
  else
    inr (mk (filter (fun kv => Path.is_within p kv.1 = false) (entries fs)) (busy fs)).

(** [fs.readdirSync(d)]: the names of the entries directly in [d]. *)
Definition readdirSync (fs : t) (d : string) : Exn + list string :=
  if is_dir fs d then
    inr (omap (fun p => if bool_decide (Path.dirname p = d)
                        then JsString.strip_prefix (d +:+ "/") p else None)
              (elements (dom (entries fs))))
  else inl (JsError ("ENOENT: no such file or directory, scandir '" +:+ d +:+ "'")).

(** [fs.statSync(p).size]; the size the host reports for a directory is
    not modelled and reads as 0. *)
Definition size (fs : t) (p : string) : Z :=
  match entries fs !! p with
  | Some (File data) => Z.of_nat (Datatypes.length data)
  | _ => 0
  end.

End Fs.

(** ** The processing route: data model and environment *)

Module Process.
Import Js JsString.

Inductive Status : Type := pending | downloading | success | failed.

Record ProgressItem : Type := mkItem {
  item_id : string;
  item_image_name : string;
  item_status : Status;
  item_error : option string
}.

(** One line of the response stream.  [JSON.stringify] runs when the frame
    is sent, so a progress frame holds the items as they are at that
    moment. *)
Inductive Frame : Type :=
| FProgress (items : list ProgressItem)
| FComplete (downloadUrl : string)
| FError (message : string).

(** A row of [sheet_to_json]: an object from column names to cells. *)
Abbreviation Row := (gmap string Cell).

(** What [XLSX.read] and [sheet_to_json] make of the uploaded bytes. *)
Inductive Upload : Type :=
| XlsxThrows (e : Exn)
| Sheet (data : list Row).

(** What [request.formData()] and [formData.get("file")] give. *)
Inductive Request : Type :=
| FormDataRejects (e : Exn)
| FormData (file : option Upload).

Record ImageResponse : Type := mkImageResponse {
  content_type : option string;
  response_data : Buffer
}.

Record Asset : Type := mkAsset {
  buffer : Buffer;
  extension : string
}.

(** How the archiving promise settles: the output stream emits ['close']
    (leaving the given bytes at the archive path, or nothing there), or the
    archiver emits ['error']. *)
Inductive ArchiveOutcome : Type :=
| OutputClosed (zip : option Buffer)
| ArchiveError (e : Exn).

Record Env : Type := mkEnv {
  os_tmpdir : string;
  (** [axios.get] of the search page: the body, or the rejection (transport
      failure, timeout or non-2xx status). *)
  axios_get_page : string -> Exn + string;
  (** cheerio: the [m] attribute of every [a.iusc] element, in order. *)
  cheerio_iusc_m : string -> list (option string);
  (** cheerio: [src] and [data-src] of every [img.mimg] element. *)
  cheerio_mimg : string -> list (option string * option string);
  (** [JSON.parse(m).murl] when the parse succeeds and the field is
      truthy. *)
  json_murl : string -> option string;
  (** [axios.get] of a candidate with [responseType: "arraybuffer"]. *)
  axios_get_image : string -> Exn + ImageResponse;
  (** The archiver run on the (path, entry name) pairs handed to
      [archive.file], reading from the given file system. *)
  archiver_run : Fs.t -> list (string * string) -> ArchiveOutcome
}.

(** *** searchBingImages *)

(** Tier 1: [a.iusc] elements whose [m] attribute parses and has a [murl]. *)
Definition tier_iusc (env : Env) (page : string) : list string :=
  omap (fun m => match truthy m with
                 | Some s => json_murl env s
                 | None => None
                 end)
       (cheerio_iusc_m env page).

(** Tier 2: [img.mimg] elements, [src || data-src], absolute URLs only. *)
Definition tier_mimg (env : Env) (page : string) : list string :=
  omap (fun attrs : option string * option string =>
          let src := match truthy attrs.1 with
                     | Some s => Some s
                     | None => attrs.2
                     end in
          match truthy src with
          | Some s => if startsWith "http" s then Some s else None
          | None => None
          end)
       (cheerio_mimg env page).

Definition murl_key : string :=
  String dquote ("murl" +:+ String dquote (":" +:+ String dquote EmptyString)).

(** The characters before the next double quote, and what follows it. *)
Fixpoint take_unquoted (s : string) : string * option string :=
  match s with
  | EmptyString => (EmptyString, None)
  | String c s' =>
      if Ascii.eqb c dquote then (EmptyString, Some s')
      else let r := take_unquoted s' in (String c r.1, r.2)
  end.

Definition match_url_tail (scheme s : string) : option (string * string) :=
  match strip_prefix "://" s with
  | Some s' =>
      match take_unquoted s' with
      | (String c u, Some rest) => Some (scheme +:+ "://" +:+ String c u, rest)
      | _ => None
      end
  | None => None
  end.

(** One attempt, at the start of [s], of the pattern of line 66: the key
    murl between double quotes, a colon, an opening double quote, http or
    https, a colon and two slashes, one or more characters other than a
    double quote, and the closing double quote.  Gives the captured URL and
    the text after the match. *)
Definition match_murl_at (s : string) : option (string * string) :=
  match strip_prefix murl_key s with
  | None => None
  | Some s1 =>
      match strip_prefix "http" s1 with
      | None => None
      | Some s2 =>
          match strip_prefix "s" s2 with
          | Some s3 =>
              match match_url_tail "https" s3 with
              | Some r => Some r
              | None => match_url_tail "http" s2
              end
          | None => match_url_tail "http" s2
          end
      end
  end.

(** The [while ((match = regex.exec(...)) !== null)] loop of a global
    regular expression: leftmost match, then resume after it. *)
Fixpoint regex_exec_all (fuel : nat) (s : string) : list string :=
  match fuel with
  | O => []
  | S fuel' =>
      match match_murl_at s with
      | Some (cap, rest) => cap :: regex_exec_all fuel' rest
      | None =>
          match s with
          | EmptyString => []
          | String _ s' => regex_exec_all fuel' s'
          end
      end
  end.

(** Tier 3: scan of the raw markup, with the escaped slash put back. *)
Definition tier_regex (page : string) : list string :=
  map (replace_all "\u002f" "/") (regex_exec_all (S (String.length page)) page).

Definition search_url (query : string) : string :=
  "https://www.bing.com/images/search?q=" +:+ encodeURIComponent query +:+ "&first=1".

(** The body of the [try] block. *)
Definition searchBingImages_try (env : Env) (query : string) : Exn + list string :=
  match axios_get_page env (search_url query) with
  | inl e => inl e
  | inr page =>
      let imageUrls := tier_iusc env page in
      let imageUrls :=
        if (Datatypes.length imageUrls =? 0)%nat then imageUrls ++ tier_mimg env page
        else imageUrls in
      let imageUrls :=
        if (Datatypes.length imageUrls =? 0)%nat then imageUrls ++ tier_regex page
        else imageUrls in
      inr (take 5 imageUrls)
  end.

Definition searchBingImages (env : Env) (query : string) : list string :=
  match searchBingImages_try env query with
  | inr urls => urls
  | inl _ => []
  end.

(** *** downloadImage *)

Definition extension_of (contentType : string) : string :=
  if includes "png" contentType then ".png"
  else if includes "gif" contentType then ".gif"
  else if includes "webp" contentType then ".webp"
  else if includes "jpeg" contentType || includes "jpg" contentType then ".jpg"
  else ".jpg".

Definition downloadImage (env : Env) (url : string) : option Asset :=
  match axios_get_image env url with
  | inl _ => None
  | inr response =>
      let contentType := default EmptyString (truthy (content_type response)) in
      let extension := extension_of contentType in
      if (Datatypes.length (response_data response) <? 1000)%nat then None
      else Some (mkAsset (response_data response) extension)
  end.

(** *** The handler's state and effects *)

(** What the handler does to the outside, in the order it does it. *)
Inductive Event : Type :=
| EvWrite (f : Frame)
| EvClose (accepted : bool)
| EvSearch (query : string)
| EvDownload (url : string)
| EvMkdir (path : string)
| EvWriteFile (path : string) (data : Buffer)
| EvPause (ms : Z)
| EvArchive (entries : list (string * string)) (zipPath : string)
            (outcome : ArchiveOutcome)
| EvExists (path : string) (result : bool)
| EvLog (line : string)
| EvRm (path : string).

Record State : Type := mkState {
  st_fs : Fs.t;
  st_closed : bool;                 (* the stream writer has been closed *)
  st_items : list ProgressItem;     (* the [progressItems] array *)
  st_now : Z;                       (* the clock read by [Date.now()] *)
  st_trace : list Event
}.

Inductive Outcome (A : Type) : Type :=
| Ret (a : A)
| Throw (e : Exn).
Arguments Ret {A} a.
Arguments Throw {A} e.

(** State passing with exceptions; a throw keeps the state reached. *)
Definition M (A : Type) : Type := State -> Outcome A * State.

#[export] Instance M_ret : MRet M := fun A a s => (Ret a, s).

#[export] Instance M_bind : MBind M := fun A B f c s =>
  match c s with
  | (Ret a, s') => f a s'
  | (Throw e, s') => (Throw e, s')
  end.

Definition throw {A : Type} (e : Exn) : M A := fun s => (Throw e, s).

Definition try_catch {A : Type} (body : M A) (handler : Exn -> M A) : M A :=
  fun s =>
    match body s with
    | (Ret a, s') => (Ret a, s')
    | (Throw e, s') => handler e s'
    end.

(** [try { body } finally { fin }]: [fin] always runs; when it throws, its
    exception replaces the outcome of [body]. *)
Definition try_finally {A : Type} (body : M A) (fin : M unit) : M A :=
  fun s =>
    match body s with
    | (r, s1) =>
        match fin s1 with
        | (Ret _, s2) => (r, s2)
        | (Throw e, s2) => (Throw e, s2)
        end
    end.

Definition log (ev : Event) (s : State) : State :=
  mkState (st_fs s) (st_closed s) (st_items s) (st_now s) (st_trace s ++ [ev]).

Definition set_fs (fs : Fs.t) (s : State) : State :=
  mkState fs (st_closed s) (st_items s) (st_now s) (st_trace s).

Definition set_closed (s : State) : State :=
  mkState (st_fs s) true (st_items s) (st_now s) (st_trace s).

Definition set_items (items : list ProgressItem) (s : State) : State :=
  mkState (st_fs s) (st_closed s) items (st_now s) (st_trace s).

Definition advance (ms : Z) (s : State) : State :=
  mkState (st_fs s) (st_closed s) (st_items s) (st_now s + ms) (st_trace s).

Definition closed_error : Exn :=
  JsError "Invalid state: WritableStream is closed".

(** [writer.write(chunk)]: rejected once the writer is closed. *)
Definition writer_write (f : Frame) : M unit := fun s =>
  if st_closed s then (Throw closed_error, s)
  else (Ret tt, log (EvWrite f) s).

(** [writer.close()]: rejected when the writer is closed already. *)
Definition writer_close : M unit := fun s =>
  if st_closed s then (Throw closed_error, log (EvClose false) s)
  else (Ret tt, set_closed (log (EvClose true) s)).

Definition sendProgress (items : list ProgressItem) : M unit :=
  writer_write (FProgress items).

Definition sendComplete (downloadUrl : string) : M unit :=
  writer_write (FComplete downloadUrl).

Definition sendError (message : string) : M unit :=
  writer_write (FError message).

Definition progressItems : M (list ProgressItem) := fun s => (Ret (st_items s), s).

(** [progressItems[i].field = value] *)
Definition update_item (i : nat) (f : ProgressItem -> ProgressItem) : M unit := fun s =>
  match st_items s !! i with
  | Some it => (Ret tt, set_items (<[i := f it]> (st_items s)) s)
  | None => (Throw (JsError "Cannot set properties of undefined"), s)
  end.

Definition with_status (st : Status) (it : ProgressItem) : ProgressItem :=
  mkItem (item_id it) (item_image_name it) st (item_error it).

Definition with_error (e : string) (it : ProgressItem) : ProgressItem :=
  mkItem (item_id it) (item_image_name it) (item_status it) (Some e).

Definition Date_now : M Z := fun s => (Ret (st_now s), s).

(** [await new Promise((resolve) => setTimeout(resolve, ms))] *)
Definition pause (ms : Z) : M unit := fun s => (Ret tt, advance ms (log (EvPause ms) s)).

Definition fs_mkdirSync (p : string) : M unit := fun s =>
  (Ret tt, set_fs (Fs.mkdirSync (st_fs s) p) (log (EvMkdir p) s)).

Definition fs_writeFileSync (p : string) (data : Buffer) : M unit := fun s =>
  let s1 := log (EvWriteFile p data) s in
  match Fs.writeFileSync (st_fs s1) p data with
  | inr fs' => (Ret tt, set_fs fs' s1)
  | inl e => (Throw e, s1)
  end.

Definition fs_existsSync (p : string) : M bool := fun s =>
  (Ret (Fs.existsSync (st_fs s) p), log (EvExists p (Fs.existsSync (st_fs s) p)) s).

(** [fs.statSync(p).size] of an existing path. *)
Definition fs_statSync_size (p : string) : M Z := fun s =>
  (Ret (Fs.size (st_fs s) p), s).

Definition console_log (line : string) : M unit := fun s =>
  (Ret tt, log (EvLog line) s).

Definition fs_rmSync (p : string) : M unit := fun s =>
  let s1 := log (EvRm p) s in
  match Fs.rmSync (st_fs s1) p with
  | inr fs' => (Ret tt, set_fs fs' s1)
  | inl e => (Throw e, s1)
  end.

Definition fs_readdirSync (d : string) : M (list string) := fun s =>
  match Fs.readdirSync (st_fs s) d with
  | inr names => (Ret names, s)
  | inl e => (Throw e, s)
  end.

(** *** The row loop (lines 186-233) *)

(** The awaited calls, with the event each leaves in the trace. *)
Definition await_searchBingImages (env : Env) (query : string) : M (list string) :=
  fun s => (Ret (searchBingImages env query), log (EvSearch query) s).

Definition await_downloadImage (env : Env) (url : string) : M (option Asset) :=
  fun s => (Ret (downloadImage env url), log (EvDownload url) s).

(** How an iteration leaves its [try] block: through [continue], or by
    falling through to the statements after the [try]/[catch]. *)
Inductive LoopCtl : Type := Continue | FallThrough.

(** [for (const url of imageUrls)] with its [break]: the value is the
    final [downloaded] flag. *)
Fixpoint try_candidates (env : Env) (tempDir rowId : string)
         (imageUrls : list string) : M bool :=
  match imageUrls with
  | [] => mret false
  | url :: rest =>
      result ← await_downloadImage env url;
      match result with
      | Some r =>
          let filePath := Path.join [tempDir; rowId +:+ extension r] in
          fs_writeFileSync filePath (buffer r);;
          mret true
      | None => try_candidates env tempDir rowId rest
      end
  end.

Definition rowId_of (row : Row) : string := String_ (row !! "id").

Definition imageName_of (row : Row) : string :=
  replace_class is_slash " " (String_ (row !! "image_name")).

(** The [try] block of one iteration. *)
Definition row_attempt (env : Env) (tempDir : string) (i : nat) (row : Row) : M LoopCtl :=
  imageUrls ← await_searchBingImages env (imageName_of row);
  if (Datatypes.length imageUrls =? 0)%nat then
    update_item i (with_status failed);;
    update_item i (with_error "No images found");;
    items ← progressItems;
    sendProgress items;;
    mret Continue
  else
    downloaded ← try_candidates env tempDir (rowId_of row) imageUrls;
    (if downloaded : bool then update_item i (with_status success)
     else update_item i (with_status failed);;
          update_item i (with_error "Failed to download image"));;
    mret FallThrough.

(** The [catch (err)] block of one iteration. *)
Definition row_catch (i : nat) (err : Exn) : M LoopCtl :=
  update_item i (with_status failed);;
  update_item i (with_error (message_or "Unknown error" err));;
  mret FallThrough.

(** One iteration of the loop over [data]. *)
Definition process_row (env : Env) (tempDir : string) (i : nat) (row : Row) : M unit :=
  update_item i (with_status downloading);;
  items ← progressItems;
  sendProgress items;;
  ctl ← try_catch (row_attempt env tempDir i row) (row_catch i);
  match ctl with
  | Continue => mret tt
  | FallThrough =>
      items ← progressItems;
      sendProgress items;;
      pause 500
  end.

(** [for (let i = 0; i < data.length; i++)], entered at index [i] with the
    rows from [data[i]] on. *)
Fixpoint rows_loop (env : Env) (tempDir : string) (i : nat) (rows : list Row) : M unit :=
  match rows with
  | [] => mret tt
  | row :: rest =>
      process_row env tempDir i row;;
      rows_loop env tempDir (S i) rest
  end.

(** *** The request handler (lines 142-280) *)

Definition initial_item (row : Row) : ProgressItem :=
  mkItem (String_ (row !! "id")) (String_ (row !! "image_name")) pending None.

Definition has_key (key : string) (row : Row) : bool :=
  bool_decide (is_Some (row !! key)).

Definition tempDir_of (env : Env) (now : Z) : string :=
  Path.join [os_tmpdir env; "image-download-" +:+ pretty now].

Definition zipDir_of (env : Env) : string :=
  Path.join [os_tmpdir env; "image-downloader-zips"].

Definition finalZipPath_of (env : Env) (fileId : string) : string :=
  Path.join [zipDir_of env; "images-" +:+ fileId +:+ ".zip"].

(** The archiving promise (lines 244-256): it resolves on the output's
    ['close'] and rejects on the archiver's ['error']. *)
Definition run_archiver (env : Env) (entries : list (string * string))
           (finalZipPath : string) : M unit :=
  fun s =>
    let outcome := archiver_run env (st_fs s) entries in
    let s1 := log (EvArchive entries finalZipPath outcome) s in
    match outcome with
    | OutputClosed (Some zip) =>
        (Ret tt, set_fs (Fs.mk (<[finalZipPath := Fs.File zip]> (Fs.entries (st_fs s1)))
                               (Fs.busy (st_fs s1))) s1)
    | OutputClosed None => (Ret tt, s1)
    | ArchiveError e => (Throw e, s1)
    end.

Definition build_archive (env : Env) (tempDir finalZipPath : string) : M unit :=
  files ← fs_readdirSync tempDir;
  run_archiver env (map (fun f => (Path.join [tempDir; f], f)) files) finalZipPath.

Definition init_items (items : list ProgressItem) : M unit :=
  fun s => (Ret tt, set_items items s).

(** The line logged at line 261. *)
Definition zip_created_line (finalZipPath : string) (size : Z) : string :=
  "ZIP created: " +:+ finalZipPath +:+ " (" +:+ pretty size +:+ " bytes)".

(** Lines 235-272: archive, report, clean up. *)
Definition finish_batch (env : Env) (tempDir : string) : M unit :=
  now ← Date_now;
  let fileId := pretty now in
  fs_mkdirSync (zipDir_of env);;
  let finalZipPath := finalZipPath_of env fileId in
  build_archive env tempDir finalZipPath;;
  zipExists ← fs_existsSync finalZipPath;
  (if zipExists : bool then
     size ← fs_statSync_size finalZipPath;
     console_log (zip_created_line finalZipPath size);;
     sendComplete ("/api/download?id=" +:+ fileId)
   else sendError "Failed to create ZIP file");;
  try_catch (fs_rmSync tempDir) (fun _ => mret tt).

(** Lines 174-272: everything after the table passed validation. *)
Definition run_batch (env : Env) (data : list Row) : M unit :=
  init_items (map initial_item data);;
  items ← progressItems;
  sendProgress items;;
  now ← Date_now;
  let tempDir := tempDir_of env now in
  fs_mkdirSync tempDir;;
  rows_loop env tempDir 0 data;;
  finish_batch env tempDir.

(** The body of the outer [try] block. *)
Definition handler_try (env : Env) (request : Request) : M unit :=
  match request with
  | FormDataRejects e => throw e
  | FormData None =>
      sendError "No file uploaded";;
      writer_close
  | FormData (Some (XlsxThrows e)) => throw e
  | FormData (Some (Sheet data)) =>
      match data with
      | [] =>
          sendError "Excel file is empty";;
          writer_close
      | firstRow :: _ =>
          if negb (has_key "id" firstRow) || negb (has_key "image_name" firstRow) then
            sendError ("Excel file must have " +:+ String dquote "id" +:+ String dquote " and "
                         +:+ String dquote "image_name" +:+ String dquote " columns");;
            writer_close
          else run_batch env data
      end
  end.

(** The asynchronous function started by [POST]. *)
Definition handler (env : Env) (request : Request) : M unit :=
  try_finally
    (try_catch (handler_try env request)
               (fun err => sendError (message_or "An error occurred" err)))
    writer_close.

Definition initial_state (fs : Fs.t) (now : Z) : State :=
  mkState fs false [] now [].

Definition POST (env : Env) (request : Request) (fs : Fs.t) (now : Z) : Outcome unit * State :=
  handler env request (initial_state fs now).

(** *** Reading a run *)

Definition frames_of (trace : list Event) : list Frame :=
  omap (fun ev => match ev with EvWrite f => Some f | _ => None end) trace.

Definition is_progress (f : Frame) : bool :=
  match f with FProgress _ => true | _ => false end.

Definition is_error (f : Frame) : bool :=
  match f with FError _ => true | _ => false end.

Definition is_complete (f : Frame) : bool :=
  match f with FComplete _ => true | _ => false end.

Definition searches_of (trace : list Event) : list string :=
  omap (fun ev => match ev with EvSearch q => Some q | _ => None end) trace.



(** The columns of an item that never change, and the same of a row. *)
Definition key_of (it : ProgressItem) : string * string :=
  (item_id it, item_image_name it).

Definition row_key (row : Row) : string * string :=
  (String_ (row !! "id"), String_ (row !! "image_name")).

(** A progress frame lists exactly the given rows, in their order. *)
Definition frame_lists (keys : list (string * string)) (f : Frame) : Prop :=
  match f with
  | FProgress items => map key_of items = keys
  | _ => True
  end.

(** The events an iteration of the row loop can leave. *)
Definition is_row_event (ev : Event) : bool :=
  match ev with
  | EvWrite (FProgress _) | EvSearch _ | EvDownload _ | EvWriteFile _ _ | EvPause _ => true
  | _ => false
  end.

(** The state with further events appended to its trace. *)
Definition log_all (evs : list Event) (s : State) : State :=
  mkState (st_fs s) (st_closed s) (st_items s) (st_now s) (st_trace s ++ evs).

Definition is_close (ev : Event) : bool :=
  match ev with EvClose _ => true | _ => false end.

Definition is_pause (ev : Event) : bool :=
  match ev with EvPause _ => true | _ => false end.

Definition progress_count (trace : list Event) : nat :=
  Datatypes.length (List.filter is_progress (frames_of trace)).

Definition pause_count (trace : list Event) : nat :=
  Datatypes.length (List.filter is_pause trace).

Definition close_count (trace : list Event) : nat :=
  Datatypes.length (List.filter is_close trace).

(** A candidate the fetcher gives nothing for. *)
Definition not_viable (env : Env) (url : string) : Prop := downloadImage env url = None.

(** What the [catch] block of the handler adds for the outcome [r] of the
    [try] block. *)
Definition catch_events (r : Outcome unit) : list Event :=
  match r with
  | Ret _ => []
  | Throw e => [EvWrite (FError (message_or "An error occurred" e))]
  end.


Definition is_rm (ev : Event) : bool :=
  match ev with EvRm _ => true | _ => false end.

Definition rm_count (trace : list Event) : nat :=
  Datatypes.length (List.filter is_rm trace).

(** Status and cause of the item at index [i] of a snapshot, and of the
    items of a state. *)
Definition settled_in (i : nat) (items : list ProgressItem)
  : option (Status * option string) :=
  (fun it => (item_status it, item_error it)) <$> items !! i.

Definition settled_at (i : nat) (s : State) : option (Status * option string) :=
  settled_in i (st_items s).

(** The test of line 198, negated: the resolver gave the row a candidate. *)
Definition has_candidates (env : Env) (row : Row) : bool :=
  negb (Datatypes.length (searchBingImages env (imageName_of row)) =? 0)%nat.

End Process.

(** ** The retrieval route *)

Module Download.
Import Js.

Inductive Body : Type :=
| JsonError (error : string)
| Binary (data : Buffer).

Record Response : Type := mkResponse {
  status : Z;
  headers : list (string * string);
  body : Body
}.

(** [NextResponse.json({ error }, { status })] *)
Definition json_response (error : string) (status : Z) : Response :=
  mkResponse status [("content-type", "application/json")] (JsonError error).

(** [fileId.replace(/[^a-zA-Z0-9]/g, "")] *)
Definition sanitize (fileId : string) : string :=
  JsString.replace_class (fun c => negb (JsString.is_alnum c)) EmptyString fileId.

Definition zipPath_of (tmpdir safeId : string) : string :=
  Path.join [Path.join [tmpdir; "image-downloader-zips"]; "images-" +:+ safeId +:+ ".zip"].

Definition zip_headers (zipBuffer : Buffer) : list (string * string) :=
  [("Content-Type", "application/zip");
   ("Content-Disposition",
    "attachment; filename=" +:+ String dquote "images.zip" +:+ String dquote EmptyString);
   ("Content-Length", pretty (Z.of_nat (Datatypes.length zipBuffer)))].

(** [GET], on the value of [searchParams.get("id")] ([None] when the
    parameter is absent): the response or the exception that escapes, and
    the file system left behind. *)
Definition GET (tmpdir : string) (id : option string) (fs : Fs.t)
  : (Exn + Response) * Fs.t :=
  match truthy id with
  | None => (inr (json_response "Missing file ID" 400), fs)
  | Some fileId =>
      let safeId := sanitize fileId in
      let zipPath := zipPath_of tmpdir safeId in
      if negb (Fs.existsSync fs zipPath) then
        (inr (json_response "File not found. It may have expired." 404), fs)
      else
        match Fs.readFileSync fs zipPath with
        | inl e => (inl e, fs)
        | inr zipBuffer =>
            let fs' := match Fs.unlinkSync fs zipPath with
                       | inr fs' => fs'
                       | inl _ => fs
                       end in
            (inr (mkResponse 200 (zip_headers zipBuffer) (Binary zipBuffer)), fs')
        end
  end.

End Download.

(** ** Sample hosts, environments and requests *)

Module Sample.
Import Js Process.

Definition host : Fs.t := Fs.mk (<["/" := Fs.Dir]> (<["/tmp" := Fs.Dir]> ∅)) ∅.

Definition bytes (n : nat) : Buffer := repeat Byte.x00 n.

Definition row (id : Cell) (name : string) : Row :=
  <["id" := id]> (<["image_name" := CStr name]> ∅).

(** One result as the raw markup embeds it: the key, the URL between
    double quotes, a comma. *)
Definition murl_entry (url : string) : string :=
  murl_key +:+ url +:+ String dquote ",".

(** Markup without result elements but with seven embedded URLs, one of
    them not an HTTP URL and one with an escaped slash. *)
Definition keyboard_page : string :=
  String.concat EmptyString
    (map murl_entry ["http://img/k1"; "ftp://img/k2"; "https://img\u002fk3"; "http://img/k4";
                     "http://img/k5"; "https://img/k6"; "http://img/k7"]).

(** A search surface that knows four phrases, and three image URLs of
    which the first is a tracking pixel. *)
Definition env : Env := {|
  os_tmpdir := "/tmp";
  axios_get_page := fun url =>
    if String.eqb url (search_url "Laptop") then inr "laptop-page"
    else if String.eqb url (search_url "Mouse") then inr "mouse-page"
    else if String.eqb url (search_url "zzqqxx") then inr "empty-page"
    else if String.eqb url (search_url "Keyboard") then inr keyboard_page
    else inl (JsError "Request failed with status code 429");
  cheerio_iusc_m := fun page =>
    if String.eqb page "laptop-page" then [Some "m1"; None; Some "m2"]
    else if String.eqb page "mouse-page" then [Some "m3"]
    else [];
  cheerio_mimg := fun _ => [];
  json_murl := fun m =>
    if String.eqb m "m1" then Some "http://img/pixel"
    else if String.eqb m "m2" then Some "http://img/laptop"
    else if String.eqb m "m3" then Some "http://img/mouse"
    else None;
  axios_get_image := fun url =>
    if String.eqb url "http://img/pixel" then inr (mkImageResponse (Some "image/gif") (bytes 43))
    else if String.eqb url "http://img/laptop" then inr (mkImageResponse (Some "image/png") (bytes 1000))
    else if String.eqb url "http://img/mouse" then inr (mkImageResponse None (bytes 1200))
    else inl (JsError "timeout of 15000ms exceeded");
  archiver_run := fun _ entries => OutputClosed (Some (bytes (22 + Datatypes.length entries)))
|}.

Definition three_rows : list Row :=
  [row (CNum 1) "Laptop"; row (CNum 2) "zzqqxx"; row (CNum 3) "Mouse"].

Definition with_archiver (f : Fs.t -> list (string * string) -> ArchiveOutcome)
           (e : Env) : Env :=
  mkEnv (os_tmpdir e) (axios_get_page e) (cheerio_iusc_m e) (cheerio_mimg e)
        (json_murl e) (axios_get_image e) f.

(** The archiver reports an error. *)
Definition env_archive_fails : Env :=
  with_archiver (fun _ _ => ArchiveError (JsError "archive stream failed")) env.


(** A table whose only row has no [image_name] cell. *)
Definition table_without_name : list Row := [<["id" := CNum 1]> ∅].



(** An artifact store holding one archive, and the same with the archive
    protected against removal. *)
Definition store : Fs.t :=
  Fs.mk (<["/tmp/image-downloader-zips/images-17.zip" := Fs.File (bytes 22)]>
           (Fs.entries (Fs.mkdirSync host "/tmp/image-downloader-zips"))) ∅.


End Sample.


(** ** Further reading of runs, paths and pages *)

Module Shape.
Import Js JsString Process.

(** The extensions [downloadImage] can give a file. *)
Definition fixed_extensions : list string := [".jpg"; ".png"; ".gif"; ".webp"].

(** A path segment that [path.normalize] keeps as it is: not empty, not a
    dot or two dots, and without a slash. *)
Definition clean_segment (seg : string) : Prop :=
  seg ≠ EmptyString ∧ seg ≠ "." ∧ seg ≠ ".." ∧ Forall (fun c => c ≠ "/"%char) (chars seg).

(** The absolute path with the given segments, and the same with a slash
    at its end (the root for no segment). *)
Definition abs_path (segs : list string) : string :=
  "/" +:+ String.concat "/" segs.

Fixpoint dir_prefix (segs : list string) : string :=
  match segs with
  | [] => "/"
  | seg :: rest => "/" +:+ seg +:+ dir_prefix rest
  end.

(** The snapshots carried by the progress frames of a trace. *)
Definition snapshots_of (trace : list Event) : list (list ProgressItem) :=
  omap (fun ev => match ev with EvWrite (FProgress items) => Some items | _ => None end) trace.

(** How far a status is along [pending], [downloading], settled. *)
Definition rank (st : Status) : nat :=
  match st with
  | pending => 0
  | downloading => 1
  | success | failed => 2
  end.

Definition is_settled (it : ProgressItem) : bool :=
  match item_status it with
  | success | failed => true
  | _ => false
  end.

(** From one snapshot to the next no row changes its id or phrase and no
    status moves back. *)
Definition advances (before after : list ProgressItem) : Prop :=
  Forall2 (fun x y => key_of x = key_of y ∧ (rank (item_status x) ≤ rank (item_status y))%nat)
          before after.

(** Every element of a list is related to its successor. *)
Fixpoint chain {A : Type} (R : A -> A -> Prop) (l : list A) : Prop :=
  match l with
  | a :: (b :: _) as rest => R a b ∧ chain R rest
  | _ => True
  end.

(** A regular file sits at the path. *)
Definition is_file (fs : Fs.t) (p : string) : bool :=
  match Fs.entries fs !! p with
  | Some (Fs.File _) => true
  | _ => false
  end.

(** An HTTP or HTTPS URL with something after the scheme and no double
    quote in it: what the pattern of line 66 captures. *)
Definition capturable (url : string) : Prop :=
  (∃ tail c, url = "http://" +:+ String c tail ∨ url = "https://" +:+ String c tail) ∧
  Forall (fun c => c ≠ dquote) (chars url).

(** The raw markup of one embedded result: the key, the URL, the closing
    double quote and a comma. *)
Definition embedded (url : string) : string :=
  murl_key +:+ url +:+ String dquote ",".

(** Markup that consists of embedded results only. *)
Definition embedded_page (urls : list string) : string :=
  foldr (fun url rest => embedded url +:+ rest) EmptyString urls.

Definition is_digit (c : ascii) : bool :=
  let n := N_of_ascii c in ((48 <=? n) && (n <=? 57))%N.

(** The state in which the row loop is entered (lines 174-184 done): the
    items built, the first snapshot sent, the working directory made. *)
Definition loop_entry (env : Env) (data : list Row) (fs : Fs.t) (now : Z) : State :=
  set_fs (Fs.mkdirSync fs (tempDir_of env now))
    (log (EvMkdir (tempDir_of env now))
       (log (EvWrite (FProgress (map initial_item data)))
          (set_items (map initial_item data) (initial_state fs now)))).

(** A character that cannot end or extend a query parameter. *)
Definition query_safe (c : ascii) : Prop :=
  uri_unreserved c = true ∨ c = "%"%char.

End Shape.


(** ** The page: [src/app/page.tsx]

    The component keeps its state in six hooks.  [handleSubmit] posts the
    selected file and folds the lines of the response stream into that
    state; the counters shown next to the progress bar are computed from
    the [progress] hook.  The browser's [fetch] and [JSON.parse] are data
    of the record [Browser]; a chunk of the stream is given by the text
    [decoder.decode] makes of it. *)

Module Page.
Import Js JsString Process.

(** The selected [File], by its name. *)
Record File_ : Type := mkFile { file_name : string }.

(** The hooks of lines 15-20. *)
Record Home : Type := mkHome {
  file : option File_;
  isDragging : bool;
  isProcessing : bool;
  progress : list ProgressItem;
  downloadUrl : option string;
  error : option string
}.

Definition setIsProcessing (v : bool) (h : Home) : Home :=
  mkHome (file h) (isDragging h) v (progress h) (downloadUrl h) (error h).

Definition setProgress (v : list ProgressItem) (h : Home) : Home :=
  mkHome (file h) (isDragging h) (isProcessing h) v (downloadUrl h) (error h).

Definition setDownloadUrl (v : option string) (h : Home) : Home :=
  mkHome (file h) (isDragging h) (isProcessing h) (progress h) v (error h).

Definition setError (v : option string) (h : Home) : Home :=
  mkHome (file h) (isDragging h) (isProcessing h) (progress h) (downloadUrl h) v.

(** How the reading of the body ends: [done], or a rejected [read]. *)
Inductive ReadEnd : Type :=
| Done
| ReadRejects (e : Exn).

(** What [fetch("/api/process", ...)] gives: a rejection; a response that
    is not [ok], with what [response.json()] gives (a rejection, or the
    [error] field of the value); a response without a body; or a body read
    as chunks of text. *)
Inductive FetchResult : Type :=
| FetchRejects (e : Exn)
| NotOk (errorData : Exn + option string)
| NoBody
| Body (chunks : list string) (stop : ReadEnd).

(** [JSON_parse] gives the frame a line parses to; [None] stands for a
    line [JSON.parse] throws on and for a value whose [type] is none of
    the three the loop looks for.  A value of one of the three types is
    taken to carry the field the loop reads. *)
Record Browser : Type := mkBrowser {
  fetch_process : File_ -> FetchResult;
  JSON_parse : string -> option Frame
}.

(** The white space [trim] removes, on UTF-8 bytes: one-byte characters
    (tab to carriage return, space), U+00A0, and the three-byte ones
    (U+1680, U+2000 to U+200A, U+2028, U+2029, U+202F, U+205F, U+3000,
    U+FEFF). *)
Definition is_space1 (c : ascii) : bool :=
  let n := N_of_ascii c in ((9 <=? n) && (n <=? 13) || (n =? 32))%N.

Definition is_space2 (c1 c2 : ascii) : bool :=
  ((N_of_ascii c1 =? 194) && (N_of_ascii c2 =? 160))%N.

Definition is_space3 (c1 c2 c3 : ascii) : bool :=
  let a := N_of_ascii c1 in
  let b := N_of_ascii c2 in
  let c := N_of_ascii c3 in
  ((a =? 225) && (b =? 154) && (c =? 128)
   || (a =? 226) && (b =? 128)
      && ((128 <=? c) && (c <=? 138) || (c =? 168) || (c =? 169) || (c =? 175))
   || (a =? 226) && (b =? 129) && (c =? 159)
   || (a =? 227) && (b =? 128) && (c =? 128)
   || (a =? 239) && (b =? 187) && (c =? 191))%N.

(** [line.trim()] is the empty string. *)
Fixpoint is_blank (line : string) : bool :=
  match line with
  | EmptyString => true
  | String c1 rest1 =>
      if is_space1 c1 then is_blank rest1
      else
        match rest1 with
        | EmptyString => false
        | String c2 rest2 =>
            if is_space2 c1 c2 then is_blank rest2
            else
              match rest2 with
              | EmptyString => false
              | String c3 rest3 =>
                  if is_space3 c1 c2 c3 then is_blank rest3 else false
              end
        end
  end.

(** [text.split("\n").filter((line) => line.trim())] *)
Definition lines_of (text : string) : list string :=
  List.filter (fun line => negb (is_blank line)) (split_on "010"%char text).

(** Lines 113-119: what a parsed line does to the hooks. *)
Definition dispatch (data : Frame) (h : Home) : Home :=
  match data with
  | FProgress items => setProgress items h
  | FComplete url => setDownloadUrl (Some url) h
  | FError message => setError (Some message) h
  end.

(** The body of [for (const line of lines)], with its [try]/[catch]. *)
Definition read_line (b : Browser) (h : Home) (line : string) : Home :=
  match JSON_parse b line with
  | Some data => dispatch data h
  | None => h
  end.

(** One round of the [while] loop that got a chunk. *)
Definition read_chunk (b : Browser) (h : Home) (text : string) : Home :=
  foldl (read_line b) h (lines_of text).

Definition read_body (b : Browser) (chunks : list string) (h : Home) : Home :=
  foldl (read_chunk b) h chunks.

(** [handleSubmit] (lines 74-132). *)
Definition handleSubmit (b : Browser) (h : Home) : Home :=
  match file h with
  | None => setError (Some "Please select a file first") h
  | Some f =>
      let h1 := setDownloadUrl None (setError None (setIsProcessing true h)) in
      let caught e := setError (Some (message_or "An error occurred" e)) in
      let h2 :=
        match fetch_process b f with
        | FetchRejects e => caught e h1
        | NotOk (inl e) => caught e h1
        | NotOk (inr message) =>
            caught (JsError (default "Failed to process file" (truthy message))) h1
        | NoBody => caught (JsError "No response stream") h1
        | Body chunks stop =>
            let h' := read_body b chunks h1 in
            match stop with
            | Done => h'
            | ReadRejects e => caught e h'
            end
        end in
      setIsProcessing false h2
  end.





(** The frames the loop acts on when it reads the given chunks. *)
Definition delivered (b : Browser) (chunks : list string) : list Frame :=
  omap (JSON_parse b) (concat (map lines_of chunks)).


End Page.

(** A browser that has a file selected and receives the lines of one run
    of the sample table's first row, two of them in one chunk and one cut
    in two. *)
Module PageSample.
Import Js Process Page.

Definition run : Outcome unit * State :=
  POST Sample.env (FormData (Some (Sheet [Sample.row (CNum 1) "Laptop"]))) Sample.host 17.

Definition wire : list (string * Frame) :=
  imap (fun i f => ("frame " +:+ pretty (Z.of_nat i), f)) (frames_of (st_trace run.2)).

Definition parse (line : string) : option Frame :=
  snd <$> List.find (fun entry => String.eqb (fst entry) line) wire.

Definition chunks : list string :=
  ["frame 0" +:+ String "010" EmptyString;
   "frame 1" +:+ String "010" ("frame 2" +:+ String "010" (String "010" EmptyString));
   "fra"; "me 9" +:+ String "010" EmptyString;
   "frame 3" +:+ String "010" EmptyString].

Definition browser : Browser := mkBrowser (fun _ => Body chunks Done) parse.

Definition selected : Home :=
  mkHome (Some (mkFile "table.xlsx")) false false [] None (Some "stale").

End PageSample.
(** * Properties *)

(** ** The primitives on small inputs *)

Module Sanity.
Import Js JsString Process.

Example join_plain : Path.join ["/tmp/w"; "7.jpg"] = "/tmp/w/7.jpg".
Proof. reflexivity. Qed.

Example join_parent : Path.join ["/tmp/w"; "../x.png"] = "/tmp/x.png".
Proof. reflexivity. Qed.

Example join_above_root : Path.join ["/tmp"; "../../../etc/p.gif"] = "/etc/p.gif".
Proof. reflexivity. Qed.

Example join_relative : Path.join ["a"; "../../b/./c/"] = "../b/c/".
Proof. reflexivity. Qed.

Example dirname_nested : Path.dirname "/tmp/w/a/b.jpg" = "/tmp/w/a".
Proof. reflexivity. Qed.

Example encode_phrase : encodeURIComponent "a b&c=d é" = "a%20b%26c%3Dd%20%C3%A9".
Proof. vm_compute. reflexivity. Qed.

Example phrase_without_slashes :
  imageName_of (Sample.row (CNum 1) "AC/DC \ live") = "AC DC   live".
Proof. vm_compute. reflexivity. Qed.

Example sanitize_traversal : Download.sanitize "../../etc/passwd-17" = "etcpasswd17".
Proof. vm_compute. reflexivity. Qed.

Example extension_by_content_type :
  map extension_of ["image/png"; "image/gif"; "image/webp"; "image/jpeg"; "text/html"; EmptyString]
  = [".png"; ".gif"; ".webp"; ".jpg"; ".jpg"; ".jpg"].
Proof. vm_compute. reflexivity. Qed.

Example small_payload_rejected :
  downloadImage Sample.env "http://img/pixel" = None ∧
  downloadImage Sample.env "http://img/laptop" = Some (mkAsset (Sample.bytes 1000) ".png") ∧
  downloadImage Sample.env "http://img/unknown" = None.
Proof. vm_compute. repeat split; reflexivity. Qed.

(** The end-to-end scenario: three rows of which the second resolves to
    nothing.  The final snapshot reads success, failed, success; one
    complete frame is sent; the archive gets two entries. *)
Example end_to_end_scenario :
  let result := POST Sample.env (FormData (Some (Sheet Sample.three_rows)))
                     Sample.host 1700000000000 in
  map (fun it => (item_status it, item_error it)) (st_items result.2)
    = [(success, None); (failed, Some "No images found"); (success, None)] ∧
  List.filter is_complete (frames_of (st_trace result.2))
    = [FComplete "/api/download?id=1700000001000"] ∧
  omap (fun ev => match ev with
                  | EvArchive entries _ _ => Some (Datatypes.length entries)
                  | _ => None
                  end) (st_trace result.2) = [2%nat].
Proof. vm_compute. repeat split; reflexivity. Qed.

End Sanity.

Module ProcessFacts.
Import Js JsString Process.

(** ** The monad's plumbing *)

(** Projections of a state after logging or replacing a component. *)
Ltac state_simpl :=
  cbn [st_fs st_now st_closed st_items st_trace log set_fs set_items
       Fs.entries Fs.busy].

Lemma log_is_log_all ev s : log ev s = log_all [ev] s.
Proof. reflexivity. Qed.

Lemma log_all_app evs evs' s : log_all evs' (log_all evs s) = log_all (evs ++ evs') s.
Proof. unfold log_all; simpl. by rewrite app_assoc. Qed.

Lemma frames_of_app t t' : frames_of (t ++ t') = frames_of t ++ frames_of t'.
Proof. unfold frames_of. apply omap_app. Qed.

Lemma searches_of_app t t' : searches_of (t ++ t') = searches_of t ++ searches_of t'.
Proof. unfold searches_of. apply omap_app. Qed.





Lemma frames_of_downloads urls : frames_of (map EvDownload urls) = [].
Proof. induction urls as [|u urls IH]; simpl; done. Qed.

Lemma searches_of_downloads urls : searches_of (map EvDownload urls) = [].
Proof. induction urls as [|u urls IH]; simpl; done. Qed.

Lemma row_events_downloads urls : forallb is_row_event (map EvDownload urls) = true.
Proof. induction urls as [|u urls IH]; simpl; done. Qed.

Lemma progress_count_app t t' :
  progress_count (t ++ t') = (progress_count t + progress_count t')%nat.
Proof.
  unfold progress_count. by rewrite frames_of_app, List.filter_app, length_app.
Qed.

Lemma pause_count_app t t' : pause_count (t ++ t') = (pause_count t + pause_count t')%nat.
Proof. unfold pause_count. by rewrite List.filter_app, length_app. Qed.

Lemma close_count_app t t' : close_count (t ++ t') = (close_count t + close_count t')%nat.
Proof. unfold close_count. by rewrite List.filter_app, length_app. Qed.

Lemma pause_count_downloads urls : pause_count (map EvDownload urls) = 0%nat.
Proof. induction urls as [|u urls IH]; simpl; done. Qed.

Lemma progress_count_downloads urls : progress_count (map EvDownload urls) = 0%nat.
Proof. unfold progress_count. by rewrite frames_of_downloads. Qed.

Lemma map_key_insert (l : list ProgressItem) i it x :
  l !! i = Some it → key_of x = key_of it →
  map key_of (<[i := x]> l) = map key_of l.
Proof.
  revert i. induction l as [|y l IH]; intros [|i] Hl Hk; simpl in *; try done.
  - injection Hl as ->. by rewrite Hk.
  - by rewrite IH.
Qed.

(** ** The candidate loop *)

(** When no candidate is viable, all are fetched and the flag stays false. *)
Lemma try_candidates_exhausted env tempDir rowId urls s :
  Forall (not_viable env) urls →
  try_candidates env tempDir rowId urls s = (Ret false, log_all (map EvDownload urls) s).
Proof.
  revert s. induction urls as [|u urls IH]; intros s Hall.
  - simpl. unfold mret, M_ret, log_all. destruct s; simpl. by rewrite app_nil_r.
  - inversion Hall as [|? ? Hu Hrest]; subst.
    simpl. unfold mbind, M_bind, await_downloadImage. rewrite Hu.
    rewrite IH by done. rewrite log_is_log_all, log_all_app. done.
Qed.

(** The loop stops at the first viable candidate: the ones before it were
    fetched, the ones after it are not touched. *)
Lemma try_candidates_first env tempDir rowId pre u post a s :
  Forall (not_viable env) pre →
  downloadImage env u = Some a →
  try_candidates env tempDir rowId (pre ++ u :: post) s =
  (fs_writeFileSync (Path.join [tempDir; rowId +:+ extension a]) (buffer a);; mret true)
    (log_all (map EvDownload (pre ++ [u])) s).
Proof.
  revert s. induction pre as [|v pre IH]; intros s Hall Hu.
  - simpl. unfold mbind at 1, M_bind at 1, await_downloadImage. rewrite Hu. done.
  - inversion Hall as [|? ? Hv Hrest]; subst.
    simpl. unfold mbind at 1, M_bind at 1, await_downloadImage. rewrite Hv.
    rewrite IH by done. rewrite log_is_log_all, log_all_app. done.
Qed.

Lemma candidates_split env urls :
  Forall (not_viable env) urls ∨
  ∃ pre u post a, urls = pre ++ u :: post ∧ Forall (not_viable env) pre ∧
                  downloadImage env u = Some a.
Proof.
  induction urls as [|u urls IH]; [by left|].
  destruct (downloadImage env u) as [a|] eqn:Hu.
  - right. exists [], u, urls, a. split; [done|]. split; [constructor | done].
  - destruct IH as [Hall | (pre & v & post & a & -> & Hpre & Hv)].
    + left. by constructor.
    + right. exists (u :: pre), v, post, a. split; [done|]. split; [by constructor | done].
Qed.

(** ** One iteration *)

Lemma bind_run {A B : Type} (c : M A) (k : A → M B) (s : State) :
  (c ≫= k) s = match c s with
               | (Ret a, s') => k a s'
               | (Throw e, s') => (Throw e, s')
               end.
Proof. reflexivity. Qed.

Lemma update_item_run i f it s :
  st_items s !! i = Some it →
  update_item i f s = (Ret tt, set_items (<[i := f it]> (st_items s)) s).
Proof. intros H. unfold update_item. by rewrite H. Qed.

Lemma sendProgress_run items s :
  st_closed s = false →
  sendProgress items s = (Ret tt, log (EvWrite (FProgress items)) s).
Proof. intros H. unfold sendProgress, writer_write. by rewrite H. Qed.

Lemma lookup_insert_same {A : Type} (l : list A) i x y :
  l !! i = Some x → <[i := y]> l !! i = Some y.
Proof. intros H. apply list_lookup_insert_eq. by eapply lookup_lt_Some. Qed.

Lemma process_row_run env tempDir i row it s :
  st_closed s = false → st_items s !! i = Some it →
  let q := imageName_of row in
  let urls := searchBingImages env q in
  let itemsD := <[i := with_status downloading it]> (st_items s) in
  let path a := Path.join [tempDir; rowId_of row +:+ extension a] in
  let settled st err := mkItem (item_id it) (item_image_name it) st err in
  ∃ s' final evs,
    process_row env tempDir i row s = (Ret tt, s') ∧
    st_closed s' = false ∧
    st_items s' = <[i := final]> (st_items s) ∧
    st_trace s' = st_trace s ++ EvWrite (FProgress itemsD) :: EvSearch q :: evs ∧
    ( (urls = [] ∧ final = settled failed (Some "No images found") ∧
       evs = [EvWrite (FProgress (st_items s'))] ∧
       st_fs s' = st_fs s ∧ st_now s' = st_now s)
    ∨ (urls ≠ [] ∧ Forall (not_viable env) urls ∧
       final = settled failed (Some "Failed to download image") ∧
       evs = map EvDownload urls ++ [EvWrite (FProgress (st_items s')); EvPause 500] ∧
       st_fs s' = st_fs s ∧ st_now s' = st_now s + 500)
    ∨ (∃ pre u post a,
         urls = pre ++ u :: post ∧ Forall (not_viable env) pre ∧
         downloadImage env u = Some a ∧
         evs = map EvDownload (pre ++ [u]) ++
               [EvWriteFile (path a) (buffer a); EvWrite (FProgress (st_items s')); EvPause 500] ∧
         st_now s' = st_now s + 500 ∧
         match Fs.writeFileSync (st_fs s) (path a) (buffer a) with
         | inr fs' => st_fs s' = fs' ∧ final = settled success (item_error it)
         | inl e => st_fs s' = st_fs s ∧
                    final = settled failed (Some (message_or "Unknown error" e))
         end) ).
Proof.
  intros Hopen Hit q urls itemsD path settled.
  assert (HD : itemsD !! i = Some (with_status downloading it))
    by (by eapply lookup_insert_same).
  unfold process_row.
  rewrite bind_run, (update_item_run _ _ it) by done.
  rewrite bind_run. unfold progressItems at 1. cbn [st_items set_items].
  rewrite bind_run, sendProgress_run by done.
  fold itemsD.
  rewrite bind_run. unfold try_catch, row_attempt.
  rewrite bind_run. unfold await_searchBingImages at 1. fold q. fold urls.
  destruct urls as [|u0 urls0] eqn:Hurls.
  - (* no candidate *)
    cbn [Datatypes.length Nat.eqb].
    rewrite bind_run, (update_item_run _ _ (with_status downloading it)) by done.
    rewrite bind_run.
    erewrite update_item_run by (cbn; by eapply lookup_insert_same).
    rewrite bind_run. unfold progressItems at 1.
    rewrite bind_run, sendProgress_run by done.
    cbn. subst itemsD. rewrite !list_insert_insert_eq.
    eexists _, (settled failed (Some "No images found")), _.
    split; [reflexivity|]. cbn.
    split; [done|]. split; [done|].
    split; [rewrite <- !app_assoc; reflexivity|].
    left. done.
  - (* at least one candidate *)
    cbn [Datatypes.length Nat.eqb].
    rewrite bind_run.
    destruct (candidates_split env (u0 :: urls0))
      as [Hall | (pre & u & post & a & Hsplit & Hpre & Hu)].
    + rewrite try_candidates_exhausted by done.
      rewrite bind_run, bind_run.
      erewrite update_item_run by (cbn; exact HD).
      erewrite update_item_run by (cbn; by eapply lookup_insert_same).
      cbn. unfold mbind, M_bind, progressItems, sendProgress, writer_write, pause. cbn.
      rewrite Hopen. cbn.
      subst itemsD. rewrite !list_insert_insert_eq.
      eexists _, (settled failed (Some "Failed to download image")), _.
      split; [reflexivity|]. cbn.
      split; [done|]. split; [done|].
      split; [rewrite <- !app_assoc; cbn; reflexivity|].
      right; left. done.
    + rewrite Hsplit, (try_candidates_first _ _ _ _ _ _ a) by done.
      fold (path a).
      unfold mbind, M_bind, fs_writeFileSync. cbn [st_fs log log_all set_fs set_items].
      destruct (Fs.writeFileSync (st_fs s) (path a) (buffer a)) as [e | fs'] eqn:Hw.
      * (* the write throws: the catch block *)
        unfold row_catch, mbind, M_bind.
        erewrite update_item_run by (cbn; exact HD).
        erewrite update_item_run by (cbn; by eapply lookup_insert_same).
        cbn. unfold progressItems, sendProgress, writer_write, pause. cbn.
        rewrite Hopen. cbn.
        subst itemsD. rewrite !list_insert_insert_eq.
        eexists _, (settled failed (Some (message_or "Unknown error" e))), _.
        split; [reflexivity|]. cbn.
        split; [done|]. split; [done|].
        split; [rewrite <- !app_assoc; cbn; reflexivity|].
        right; right. exists pre, u, post, a. rewrite Hw. done.
      * cbn [mret M_ret].
        erewrite update_item_run by (cbn; exact HD).
        cbn. unfold progressItems, sendProgress, writer_write, pause. cbn.
        rewrite Hopen. cbn.
        subst itemsD. rewrite !list_insert_insert_eq.
        eexists _, (settled success (item_error it)), _.
        split; [reflexivity|]. cbn.
        split; [done|]. split; [done|].
        split; [rewrite <- !app_assoc; cbn; reflexivity|].
        right; right. exists pre, u, post, a. rewrite Hw. done.
Qed.

Lemma writeFileSync_keeps_dirs fs p data fs' d :
  Fs.writeFileSync fs p data = inr fs' →
  Fs.is_dir fs d = true → Fs.is_dir fs' d = true.
Proof.
  unfold Fs.writeFileSync. intros Hw Hd.
  destruct (Fs.is_dir fs p) eqn:Hp; [done|].
  destruct (Fs.is_dir fs (Path.dirname p)); [|by destruct (Fs.existsSync fs _)].
  injection Hw as <-. unfold Fs.is_dir in *. cbn.
  destruct (decide (p = d)) as [->|Hne]; [congruence|].
  by rewrite lookup_insert_ne.
Qed.

(** What every iteration guarantees, whatever its outcome. *)
Lemma process_row_summary env tempDir i row s :
  st_closed s = false → (i < Datatypes.length (st_items s))%nat →
  ∃ s' evs,
    process_row env tempDir i row s = (Ret tt, s') ∧
    st_closed s' = false ∧
    map key_of (st_items s') = map key_of (st_items s) ∧
    st_trace s' = st_trace s ++ evs ∧
    forallb is_row_event evs = true ∧
    progress_count evs = 2%nat ∧
    Forall (frame_lists (map key_of (st_items s))) (frames_of evs) ∧
    searches_of evs = [imageName_of row] ∧
    pause_count evs = (if has_candidates env row then 1 else 0)%nat ∧
    (∀ d, Fs.is_dir (st_fs s) d = true → Fs.is_dir (st_fs s') d = true).
Proof.
  intros Hopen Hi.
  destruct (lookup_lt_is_Some_2 _ _ Hi) as [it Hit].
  destruct (process_row_run env tempDir i row it s Hopen Hit)
    as (s' & final & evs & Hrun & Hopen' & Hitems & Htrace & Hcases).
  assert (HkD : map key_of (<[i := with_status downloading it]> (st_items s))
                = map key_of (st_items s)) by (by eapply map_key_insert).
  assert (Hkf : key_of final = key_of it).
  { destruct Hcases as [(_ & -> & _) | [(_ & _ & -> & _) | (pre & u & post & a & _ & _ & _ & _ & _ & Hw)]];
      [done | done |].
    destruct (Fs.writeFileSync _ _ _); by destruct Hw as [_ ->]. }
  assert (Hk' : map key_of (st_items s') = map key_of (st_items s))
    by (rewrite Hitems; by eapply map_key_insert).
  assert (Hdirs : ∀ d, Fs.is_dir (st_fs s) d = true → Fs.is_dir (st_fs s') d = true).
  { intros d Hd.
    destruct Hcases as [(_ & _ & _ & -> & _) | [(_ & _ & _ & _ & -> & _) | (pre & u & post & a & _ & _ & _ & _ & _ & Hw)]];
      [done | done |].
    destruct (Fs.writeFileSync _ _ _) as [e|fs'] eqn:Hwr; destruct Hw as [-> _]; [done|].
    by eapply writeFileSync_keeps_dirs. }
  exists s', (EvWrite (FProgress (<[i := with_status downloading it]> (st_items s)))
                :: EvSearch (imageName_of row) :: evs).
  split; [done|]. split; [done|]. split; [done|]. split; [done|].
  cut (forallb is_row_event
         (EvWrite (FProgress (<[i:=with_status downloading it]> (st_items s)))
          :: EvSearch (imageName_of row) :: evs) = true
       ∧ progress_count
           (EvWrite (FProgress (<[i:=with_status downloading it]> (st_items s)))
            :: EvSearch (imageName_of row) :: evs) = 2%nat
       ∧ Forall (frame_lists (map key_of (st_items s)))
           (frames_of
              (EvWrite (FProgress (<[i:=with_status downloading it]> (st_items s)))
               :: EvSearch (imageName_of row) :: evs))
       ∧ searches_of
           (EvWrite (FProgress (<[i:=with_status downloading it]> (st_items s)))
            :: EvSearch (imageName_of row) :: evs) = [imageName_of row]
       ∧ pause_count
           (EvWrite (FProgress (<[i:=with_status downloading it]> (st_items s)))
            :: EvSearch (imageName_of row) :: evs)
         = (if has_candidates env row then 1 else 0)%nat).
  { intros (? & ? & ? & ? & ?). done. }
  unfold has_candidates.
  destruct Hcases as [(Hu & _ & -> & _) | [(Hne & _ & _ & -> & _) | (pre & u & post & a & Hu & _ & _ & -> & _)]].
  - rewrite Hu. cbn. repeat split; try done.
    repeat constructor; cbn; done.
  - destruct (searchBingImages env (imageName_of row)) as [|u0 urls0] eqn:Hs; [done|].
    cbn [Datatypes.length Nat.eqb negb].
    change (EvWrite ?f :: EvSearch ?q :: ?l) with ([EvWrite f; EvSearch q] ++ l).
    rewrite !forallb_app, !progress_count_app, !pause_count_app, !frames_of_app,
      !searches_of_app, row_events_downloads, progress_count_downloads,
      pause_count_downloads, frames_of_downloads, searches_of_downloads.
    cbn. repeat split; try done. repeat constructor; cbn; done.
  - rewrite Hu. destruct pre; cbn [app Datatypes.length Nat.eqb negb].
    all: change (EvWrite ?f :: EvSearch ?q :: ?l) with ([EvWrite f; EvSearch q] ++ l).
    all: rewrite !forallb_app, !progress_count_app, !pause_count_app, !frames_of_app,
      !searches_of_app, row_events_downloads, progress_count_downloads,
      pause_count_downloads, frames_of_downloads, searches_of_downloads.
    all: cbn; repeat split; try done; repeat constructor; cbn; done.
Qed.

(** ** The loop over the rows *)

Lemma rows_loop_run env tempDir rows : ∀ i s,
  st_closed s = false →
  (i + Datatypes.length rows ≤ Datatypes.length (st_items s))%nat →
  ∃ s' evs,
    rows_loop env tempDir i rows s = (Ret tt, s') ∧
    st_closed s' = false ∧
    map key_of (st_items s') = map key_of (st_items s) ∧
    st_trace s' = st_trace s ++ evs ∧
    forallb is_row_event evs = true ∧
    progress_count evs = (2 * Datatypes.length rows)%nat ∧
    Forall (frame_lists (map key_of (st_items s))) (frames_of evs) ∧
    searches_of evs = map imageName_of rows ∧
    pause_count evs = Datatypes.length (List.filter (has_candidates env) rows) ∧
    (∀ d, Fs.is_dir (st_fs s) d = true → Fs.is_dir (st_fs s') d = true).
Proof.
  induction rows as [|row rows IH]; intros i s Hopen Hlen.
  - exists s, []. cbn. rewrite app_nil_r. repeat split; done.
  - cbn [Datatypes.length] in Hlen.
    destruct (process_row_summary env tempDir i row s Hopen ltac:(lia))
      as (s1 & evs1 & Hrun1 & Hopen1 & Hk1 & Ht1 & Hev1 & Hp1 & Hf1 & Hs1 & Hz1 & Hd1).
    assert (Hlen1 : Datatypes.length (st_items s1) = Datatypes.length (st_items s)).
    { rewrite <- (length_map key_of (st_items s1)), Hk1. apply length_map. }
    destruct (IH (S i) s1 Hopen1 ltac:(lia))
      as (s2 & evs2 & Hrun2 & Hopen2 & Hk2 & Ht2 & Hev2 & Hp2 & Hf2 & Hs2 & Hz2 & Hd2).
    exists s2, (evs1 ++ evs2).
    cbn [rows_loop]. rewrite bind_run, Hrun1, Hrun2.
    split; [done|]. split; [done|].
    split; [by rewrite Hk2|].
    split; [by rewrite Ht2, Ht1, app_assoc|].
    rewrite forallb_app, progress_count_app, frames_of_app, searches_of_app, pause_count_app.
    rewrite Hev1, Hev2, Hp1, Hp2, Hs1, Hs2, Hz1, Hz2.
    split; [done|]. split; [cbn; lia|].
    split; [apply Forall_app; split; [done | by rewrite <- Hk1]|].
    split; [done|].
    split; [cbn [List.filter]; destruct (has_candidates env row); cbn; done|].
    intros d Hd. by apply Hd2, Hd1.
Qed.
(** ** Archiving, reporting and cleaning up *)

Lemma existsSync_insert m b p x :
  Fs.existsSync (Fs.mk (<[p := x]> m) b) p = true.
Proof.
  unfold Fs.existsSync. cbn. rewrite lookup_insert_eq.
  apply bool_decide_eq_true. by eexists.
Qed.

Lemma insert_dirs_keeps_dirs (m : gmap string Fs.Node) l d :
  (m !! d = Some Fs.Dir ∨ d ∈ l) →
  foldr (fun p m' => <[p := Fs.Dir]> m') m l !! d = Some Fs.Dir.
Proof.
  induction l as [|p l IH]; cbn; intros [Hm | Hin].
  - done.
  - by apply not_elem_of_nil in Hin.
  - destruct (decide (p = d)) as [->|Hne]; [by rewrite lookup_insert_eq|].
    rewrite lookup_insert_ne by done. apply IH. by left.
  - destruct (decide (p = d)) as [->|Hne]; [by rewrite lookup_insert_eq|].
    rewrite lookup_insert_ne by done. apply IH. right.
    apply elem_of_cons in Hin as [->|Hin]; done.
Qed.

Lemma mkdirSync_makes_dir fs p : Fs.is_dir (Fs.mkdirSync fs p) p = true.
Proof.
  unfold Fs.is_dir, Fs.mkdirSync. cbn [Fs.entries].
  rewrite insert_dirs_keeps_dirs; [done|]. right. apply elem_of_cons. by left.
Qed.

Lemma mkdirSync_keeps_dirs fs p d :
  Fs.is_dir fs d = true → Fs.is_dir (Fs.mkdirSync fs p) d = true.
Proof.
  unfold Fs.is_dir, Fs.mkdirSync. cbn [Fs.entries]. intros Hd.
  rewrite insert_dirs_keeps_dirs; [done|]. left.
  destruct (Fs.entries fs !! d) as [[]|]; done.
Qed.

(** The rest of the [try] block after the loop, from a state with the
    writer still open and the working directory in place.  The archive is
    named after the clock of that state.  Either the archiver reports an
    error, the promise rejects and nothing else happens here; or the promise
    resolves, the existence of the archive decides between the complete and
    the error frame, and the working directory is removed, whether or not
    that removal succeeds. *)
Lemma finish_batch_run env tempDir s :
  st_closed s = false →
  Fs.is_dir (st_fs s) tempDir = true →
  let zip := finalZipPath_of env (pretty (st_now s)) in
  let url := "/api/download?id=" +:+ pretty (st_now s) in
  ∃ r s' entries evs,
    finish_batch env tempDir s = (r, s') ∧
    st_closed s' = false ∧
    st_trace s' = st_trace s ++ EvMkdir (zipDir_of env) :: evs ∧
    ( (∃ e, r = Throw e ∧ evs = [EvArchive entries zip (ArchiveError e)])
    ∨ (∃ z size, r = Ret tt ∧
         evs = [EvArchive entries zip (OutputClosed z); EvExists zip true;
                EvLog (zip_created_line zip size);
                EvWrite (FComplete url); EvRm tempDir])
    ∨ (r = Ret tt ∧
         evs = [EvArchive entries zip (OutputClosed None); EvExists zip false;
                EvWrite (FError "Failed to create ZIP file"); EvRm tempDir]) ).
Proof.
  intros Hopen Hdir zip url.
  unfold finish_batch, build_archive, Date_now, fs_mkdirSync, fs_readdirSync,
    run_archiver, fs_existsSync, fs_statSync_size, console_log, sendComplete,
    sendError, writer_write, try_catch, fs_rmSync, mbind, M_bind, mret, M_ret.
  state_simpl.
  fold zip. fold url.
  unfold Fs.readdirSync at 1.
  rewrite (mkdirSync_keeps_dirs _ _ _ Hdir).
  match goal with |- context [archiver_run env ?f ?es] =>
    set (entries := es); destruct (archiver_run env f entries) as [[b|] | e] eqn:Harch end.
  - (* the output closed and left a file *)
    state_simpl.
    rewrite existsSync_insert.
    state_simpl.
    rewrite Hopen.
    state_simpl.
    match goal with |- context [Fs.rmSync ?f ?p] => destruct (Fs.rmSync f p) end.
    all: eexists _, _, entries, _; (split; [reflexivity|]); cbn; (split; [done|]).
    all: (split; [rewrite <- !app_assoc; cbn; reflexivity|]).
    all: right; left; eexists (Some b), _; done.
  - (* the output closed, nothing new at the archive path *)
    state_simpl.
    match goal with |- context [Fs.existsSync ?f zip] => destruct (Fs.existsSync f zip) end.
    all: state_simpl.
    all: rewrite Hopen; state_simpl.
    all: match goal with |- context [Fs.rmSync ?f ?p] => destruct (Fs.rmSync f p) end.
    all: eexists _, _, entries, _; (split; [reflexivity|]); cbn; (split; [done|]).
    all: (split; [rewrite <- !app_assoc; cbn; reflexivity|]).
    1,2: right; left; eexists None, _; done.
    all: right; right; done.
  - eexists _, _, entries, _. split; [reflexivity|]. cbn. split; [done|].
    split; [rewrite <- !app_assoc; cbn; reflexivity|].
    left. exists e. done.
Qed.

(** ** The whole request *)

(** A request whose table passes validation.  Its trace is the initial
    snapshot, the creation of the working directory, the events of the row
    loop and the creation of the archive directory, followed by one of
    three endings. *)
Lemma POST_valid_trace env firstRow rest fs now :
  has_key "id" firstRow = true → has_key "image_name" firstRow = true →
  let data := firstRow :: rest in
  let tempDir := tempDir_of env now in
  let result := POST env (FormData (Some (Sheet data))) fs now in
  ∃ loop_evs (now' : Z) entries,
    let zip := finalZipPath_of env (pretty now') in
    let url := "/api/download?id=" +:+ pretty now' in
    let before := [EvWrite (FProgress (map initial_item data)); EvMkdir tempDir]
                    ++ loop_evs ++ [EvMkdir (zipDir_of env)] in
    forallb is_row_event loop_evs = true ∧
    progress_count loop_evs = (2 * Datatypes.length data)%nat ∧
    Forall (frame_lists (map row_key data)) (frames_of loop_evs) ∧
    searches_of loop_evs = map imageName_of data ∧
    pause_count loop_evs = Datatypes.length (List.filter (has_candidates env) data) ∧
    result.1 = Ret tt ∧
    st_closed result.2 = true ∧
    ( (∃ z size, st_trace result.2 =
            before ++ [EvArchive entries zip (OutputClosed z); EvExists zip true;
                       EvLog (zip_created_line zip size);
                       EvWrite (FComplete url); EvRm tempDir; EvClose true])
    ∨ st_trace result.2 =
        before ++ [EvArchive entries zip (OutputClosed None); EvExists zip false;
                   EvWrite (FError "Failed to create ZIP file"); EvRm tempDir;
                   EvClose true]
    ∨ (∃ e, st_trace result.2 =
            before ++ [EvArchive entries zip (ArchiveError e);
                       EvWrite (FError (message_or "An error occurred" e));
                       EvClose true]) ).
Proof.
  intros Hid Hname data tempDir result.
  set (s0 := set_fs (Fs.mkdirSync fs tempDir)
               (log (EvMkdir tempDir)
                  (log (EvWrite (FProgress (map initial_item data)))
                     (set_items (map initial_item data) (initial_state fs now))))).
  destruct (rows_loop_run env tempDir data 0 s0) as
    (s1 & evs & Hloop & Hopen1 & Hk1 & Ht1 & Hev & Hp & Hf & Hs & Hz & Hd).
  { done. }
  { subst s0. cbn. rewrite length_map. lia. }
  assert (Hdir1 : Fs.is_dir (st_fs s1) tempDir = true).
  { apply Hd. subst s0. cbn [st_fs set_fs]. apply mkdirSync_makes_dir. }
  destruct (finish_batch_run env tempDir s1 Hopen1 Hdir1)
    as (r2 & s2 & entries & evs2 & Hfin & Hopen2 & Ht2 & Hcases).
  exists evs, (st_now s1), entries.
  split; [done|]. split; [done|].
  split.
  { assert (map key_of (st_items s0) = map row_key data) as <-; [|done].
    subst s0. cbn [st_items set_fs log set_items]. by rewrite map_map. }
  split; [done|]. split; [done|].
  assert (Hres : result.1 = Ret tt ∧ st_closed result.2 = true ∧
                 st_trace result.2 = st_trace s2 ++ catch_events r2 ++ [EvClose true]).
  { subst result. unfold POST, handler, try_finally, try_catch, handler_try.
    fold data. cbn [data]. rewrite Hid, Hname. cbn [negb orb].
    fold data.
    unfold run_batch, init_items, progressItems, sendProgress, writer_write, Date_now,
      fs_mkdirSync, mbind, M_bind.
    cbn [st_closed initial_state set_items st_items st_now log st_fs].
    fold tempDir. fold s0. rewrite Hloop, Hfin.
    destruct r2 as [[]|e]; cbn [catch_events].
    - unfold writer_close. rewrite Hopen2. cbn. done.
    - unfold sendError, writer_write, writer_close. rewrite Hopen2. cbn.
      rewrite Hopen2. cbn. rewrite <- app_assoc. done. }
  destruct Hres as (Hr1 & Hr2 & Hr3).
  split; [done|]. split; [done|].
  rewrite Hr3, Ht2, Ht1. subst s0. cbn [st_trace set_fs log set_items initial_state].
  destruct Hcases as [(e & -> & ->) | [(z & size & -> & ->) | (-> & ->)]]; cbn [catch_events].
  - right; right. exists e. rewrite <- !app_assoc. cbn. done.
  - left. exists z, size. rewrite <- !app_assoc. cbn. done.
  - right; left. rewrite <- !app_assoc. cbn. done.
Qed.
Lemma row_events_counts evs :
  forallb is_row_event evs = true →
  close_count evs = 0%nat ∧ rm_count evs = 0%nat ∧
  Forall (fun f => is_progress f = true) (frames_of evs).
Proof.
  induction evs as [|ev evs IH]; cbn; [done|].
  intros [Hev Hrest]%andb_prop. destruct (IH Hrest) as (Hc & Hr & Hf).
  unfold close_count, rm_count in *.
  destruct ev as [f|?|?|?|?|? ?|?|? ? ?|? ?|?|?]; try destruct f; cbn in *; try done.
  split; [done|]. split; [done|]. by constructor.
Qed.

(** ** The progress stream of a valid request *)



(** ** Validation failures *)

(** C4: a table with no rows, or whose first row lacks the [id] or the
    [image_name] column, is rejected: the stream carries one error frame and
    no progress frame, the items are never built, no search, download or
    file-system call is made and the file system is left as it was. *)
Theorem invalid_table_is_rejected env data fs now :
  (data = [] ∨
   ∃ firstRow rest, data = firstRow :: rest ∧
     (has_key "id" firstRow = false ∨ has_key "image_name" firstRow = false)) →
  let result := POST env (FormData (Some (Sheet data))) fs now in
  ∃ message,
    st_trace result.2 = [EvWrite (FError message); EvClose true; EvClose false] ∧
    frames_of (st_trace result.2) = [FError message] ∧
    progress_count (st_trace result.2) = 0%nat ∧
    st_items result.2 = [] ∧
    st_fs result.2 = fs.
Proof.
  intros [-> | (firstRow & rest & -> & Hmiss)] result; subst result.
  - eexists. cbn. repeat split; reflexivity.
  - unfold POST, handler, handler_try.
    assert (negb (has_key "id" firstRow) || negb (has_key "image_name" firstRow) = true) as ->.
    { destruct Hmiss as [-> | ->]; [done|]. apply orb_true_r. }
    eexists. cbn. repeat split; reflexivity.
Qed.

Lemma invalid_table_is_rejected_witness :
  has_key "image_name" (<["id" := CNum 1]> ∅ : Row) = false ∧
  ∃ message,
    st_trace (POST Sample.env (FormData (Some (Sheet Sample.table_without_name)))
                   Sample.host 17).2
    = [EvWrite (FError message); EvClose true; EvClose false].
Proof.
  split; [reflexivity|].
  destruct (invalid_table_is_rejected Sample.env Sample.table_without_name Sample.host 17)
    as (message & Htrace & _).
  - right. exists (<["id" := CNum 1]> ∅), []. split; [reflexivity|]. right. reflexivity.
  - exists message. exact Htrace.
Defined.

(** ** Closing the writer *)

(** A request that passes validation closes the writer once. *)
Lemma valid_request_closes_once env firstRow rest fs now :
  has_key "id" firstRow = true → has_key "image_name" firstRow = true →
  close_count (st_trace (POST env (FormData (Some (Sheet (firstRow :: rest)))) fs now).2)
  = 1%nat.
Proof.
  intros Hid Hname.
  destruct (POST_valid_trace env firstRow rest fs now Hid Hname)
    as (evs & now' & entries & Hev & _ & _ & _ & _ & _ & _ & Hshape).
  destruct (row_events_counts evs Hev) as (Hc & _ & _).
  destruct Hshape as [(z & size & ->) | [-> | (e & ->)]].
  all: rewrite !close_count_app, Hc; reflexivity.
Qed.

(** So does a request whose form data or workbook cannot be read. *)
Lemma unreadable_request_closes_once env e fs now :
  st_trace (POST env (FormDataRejects e) fs now).2
    = [EvWrite (FError (message_or "An error occurred" e)); EvClose true] ∧
  st_trace (POST env (FormData (Some (XlsxThrows e))) fs now).2
    = [EvWrite (FError (message_or "An error occurred" e)); EvClose true].
Proof. split; reflexivity. Qed.

(** C8, at the failing inputs: when no file was uploaded and when the
    table is empty, [writer.close()] is called by the early-return branch
    and again by the [finally] block; the second call is rejected and its
    rejection is the outcome of the handler. *)
Theorem early_return_closes_twice env fs now :
  POST env (FormData None) fs now
    = (Throw closed_error,
       mkState fs true [] now
               [EvWrite (FError "No file uploaded"); EvClose true; EvClose false]) ∧
  POST env (FormData (Some (Sheet []))) fs now
    = (Throw closed_error,
       mkState fs true [] now
               [EvWrite (FError "Excel file is empty"); EvClose true; EvClose false]) ∧
  close_count (st_trace (POST env (FormData None) fs now).2) = 2%nat ∧
  close_count (st_trace (POST env (FormData (Some (Sheet []))) fs now).2) = 2%nat.
Proof. repeat split; reflexivity. Qed.

(** The third early return, for a first row without one of the columns,
    does the same. *)
Lemma missing_column_closes_twice env firstRow rest fs now :
  has_key "id" firstRow = false ∨ has_key "image_name" firstRow = false →
  let result := POST env (FormData (Some (Sheet (firstRow :: rest)))) fs now in
  result.1 = Throw closed_error ∧ close_count (st_trace result.2) = 2%nat.
Proof.
  intros Hmiss result. subst result. unfold POST, handler, handler_try.
  assert (negb (has_key "id" firstRow) || negb (has_key "image_name" firstRow) = true) as ->.
  { destruct Hmiss as [-> | ->]; [done|]. apply orb_true_r. }
  split; reflexivity.
Qed.

(** ** The pause between rows *)

(** Every row is searched, in input order, and the pauses are as many as
    the rows for which the resolver found a candidate. *)
Lemma pauses_follow_rows_with_candidates env firstRow rest fs now :
  has_key "id" firstRow = true → has_key "image_name" firstRow = true →
  let data := firstRow :: rest in
  let trace := st_trace (POST env (FormData (Some (Sheet data))) fs now).2 in
  searches_of trace = map imageName_of data ∧
  pause_count trace = Datatypes.length (List.filter (has_candidates env) data).
Proof.
  intros Hid Hname data trace.
  destruct (POST_valid_trace env firstRow rest fs now Hid Hname)
    as (evs & now' & entries & _ & _ & _ & Hs & Hz & _ & _ & Hshape).
  fold data in Hs, Hz, Hshape. fold trace in Hshape.
  destruct Hshape as [(z & size & ->) | [-> | (e & ->)]].
  all: rewrite !searches_of_app, !pause_count_app, Hs, Hz.
  all: cbn [searches_of omap app pause_count List.filter is_pause Datatypes.length list_omap].
  all: rewrite !app_nil_r; split; [done | lia].
Qed.

(** C9, at the failing input: of two rows, the first finds no candidate.
    Both rows are searched in order, but the run has a single pause, and
    the failed snapshot of the first row is directly followed by the
    dequeue of the second. *)
Theorem no_pause_after_empty_resolution :
  let data := [Sample.row (CNum 2) "zzqqxx"; Sample.row (CNum 3) "Mouse"] in
  let trace := st_trace (POST Sample.env (FormData (Some (Sheet data))) Sample.host 17).2 in
  searches_of trace = ["zzqqxx"; "Mouse"] ∧
  pause_count trace = 1%nat ∧
  ∃ before failed_snapshot next_snapshot after,
    trace = before ++ [EvSearch "zzqqxx"; EvWrite (FProgress failed_snapshot);
                       EvWrite (FProgress next_snapshot); EvSearch "Mouse"] ++ after ∧
    settled_in 0 failed_snapshot = Some (failed, Some "No images found") ∧
    settled_in 1 next_snapshot = Some (downloading, None).
Proof.
  intros data trace.
  split; [vm_compute; reflexivity|]. split; [vm_compute; reflexivity|].
  eexists (take 3 trace), _, _, (drop 7 trace).
  split; [vm_compute; reflexivity|].
  split; vm_compute; reflexivity.
Qed.
(** ** The outcome of one row *)





Lemma writeFileSync_throws_Error fs p data e :
  Fs.writeFileSync fs p data = inl e → ∃ m, e = JsError m.
Proof.
  unfold Fs.writeFileSync. intros H.
  destruct (Fs.is_dir fs p); [injection H as <-; by eexists|].
  destruct (Fs.is_dir fs (Path.dirname p)); [done|].
  destruct (Fs.existsSync fs (Path.dirname p)); injection H as <-; by eexists.
Qed.


(** ** Where the bytes are written *)



(** ** Reporting the archive *)




(** ** Removing the working directory *)

(** C7, at the failing input: the archiver reports an error.  The request
    ends with the error frame, [rmSync] is never called, and the working
    directory that this request created is still there with the downloaded
    file in it. *)
Theorem working_directory_left_after_archive_error :
  let request := FormData (Some (Sheet [Sample.row (CNum 1) "Laptop"])) in
  let result := POST Sample.env_archive_fails request Sample.host 17 in
  let tempDir := tempDir_of Sample.env_archive_fails 17 in
  result.1 = Ret tt ∧
  last (frames_of (st_trace result.2)) = Some (FError "archive stream failed") ∧
  rm_count (st_trace result.2) = 0%nat ∧
  Fs.is_dir Sample.host tempDir = false ∧
  Fs.is_dir (st_fs result.2) tempDir = true ∧
  Fs.existsSync (st_fs result.2) (Path.join [tempDir; "1.png"]) = true.
Proof. vm_compute. repeat split; reflexivity. Qed.

(** In general, for a request that passes validation: the removal of the
    working directory is attempted exactly when the archiving promise
    resolved, and is skipped when the archiver reported an error. *)
Lemma cleanup_follows_resolved_archive env firstRow rest fs now :
  has_key "id" firstRow = true → has_key "image_name" firstRow = true →
  let trace := st_trace (POST env (FormData (Some (Sheet (firstRow :: rest)))) fs now).2 in
  (rm_count trace = 1%nat ∧
   ∃ entries zip z, EvArchive entries zip (OutputClosed z) ∈ trace) ∨
  (rm_count trace = 0%nat ∧
   ∃ entries zip e, EvArchive entries zip (ArchiveError e) ∈ trace ∧
     last (frames_of trace) = Some (FError (message_or "An error occurred" e))).
Proof.
  intros Hid Hname trace.
  destruct (POST_valid_trace env firstRow rest fs now Hid Hname)
    as (evs & now' & entries & Hev & _ & _ & _ & _ & _ & _ & Hshape).
  destruct (row_events_counts evs Hev) as (_ & Hrm & _).
  assert (Happ : ∀ t t', rm_count (t ++ t') = (rm_count t + rm_count t')%nat).
  { intros t t'. unfold rm_count. by rewrite List.filter_app, length_app. }
  fold trace in Hshape.
  destruct Hshape as [(z & size & ->) | [-> | (e & ->)]].
  - left. rewrite !Happ, Hrm. split; [reflexivity|].
    eexists _, _, z. apply elem_of_app. right. apply elem_of_cons. by left.
  - left. rewrite !Happ, Hrm. split; [reflexivity|].
    eexists _, _, None. apply elem_of_app. right. apply elem_of_cons. by left.
  - right. rewrite !Happ, Hrm. split; [reflexivity|].
    eexists _, _, e. split; [apply elem_of_app; right; apply elem_of_cons; by left|].
    rewrite frames_of_app.
    change (frames_of [EvArchive entries (finalZipPath_of env (pretty now')) (ArchiveError e);
                       EvWrite (FError (message_or "An error occurred" e)); EvClose true])
      with ([] ++ [FError (message_or "An error occurred" e)]).
    rewrite app_assoc. apply last_snoc.
Qed.

(** When the archiving promise resolves, the removal is attempted. *)
Lemma working_directory_removed_after_archive :
  let request := FormData (Some (Sheet Sample.three_rows)) in
  let result := POST Sample.env request Sample.host 17 in
  let tempDir := tempDir_of Sample.env 17 in
  rm_count (st_trace result.2) = 1%nat ∧
  Fs.existsSync (st_fs result.2) tempDir = false ∧
  Fs.existsSync (st_fs result.2) (Path.join [tempDir; "1.png"]) = false.
Proof. vm_compute. repeat split; reflexivity. Qed.

(** A removal the host refuses changes neither the outcome nor the frames
    of the request. *)
Lemma refused_removal_is_swallowed :
  let request := FormData (Some (Sheet Sample.three_rows)) in
  let tempDir := tempDir_of Sample.env 17 in
  let busy_host := Fs.mk (Fs.entries Sample.host) {[ tempDir ]} in
  let result := POST Sample.env request Sample.host 17 in
  let result' := POST Sample.env request busy_host 17 in
  result'.1 = result.1 ∧
  st_trace result'.2 = st_trace result.2 ∧
  Fs.is_dir (st_fs result'.2) tempDir = true.
Proof. vm_compute. repeat split; reflexivity. Qed.
End ProcessFacts.

(** ** The phrase resolver *)

Module ResolverFacts.
Import Js JsString Process.

(** *** The scans never run out of fuel *)

Lemma strip_prefix_length p s rest :
  strip_prefix p s = Some rest →
  String.length s = (String.length p + String.length rest)%nat.
Proof.
  revert s. induction p as [|a p IH]; intros [|b s] H; cbn in *; try done.
  - by injection H as <-.
  - by injection H as <-.
  - destruct (Ascii.eqb a b); [|done]. by rewrite (IH s H).
Qed.

Lemma take_unquoted_length s u rest :
  take_unquoted s = (u, Some rest) → (String.length rest < String.length s)%nat.
Proof.
  revert u. induction s as [|c s IH]; intros u H; cbn in *; [done|].
  destruct (Ascii.eqb c dquote).
  - injection H as _ <-. lia.
  - destruct (take_unquoted s) as [u' r'] eqn:E. cbn in H. injection H as _ ->.
    specialize (IH u' eq_refl). lia.
Qed.

Lemma match_url_tail_length scheme s cap rest :
  match_url_tail scheme s = Some (cap, rest) →
  (String.length rest < String.length s)%nat.
Proof.
  unfold match_url_tail. intros H.
  destruct (strip_prefix "://" s) as [s'|] eqn:Hp; [|done].
  apply strip_prefix_length in Hp.
  destruct (take_unquoted s') as [[|c u] [r|]] eqn:Ht; try done.
  injection H as _ <-. apply take_unquoted_length in Ht. lia.
Qed.

(** A match consumes at least one character. *)
Lemma match_murl_at_length s cap rest :
  match_murl_at s = Some (cap, rest) → (String.length rest < String.length s)%nat.
Proof.
  unfold match_murl_at. intros H.
  destruct (strip_prefix murl_key s) as [s1|] eqn:H1; [|done].
  apply strip_prefix_length in H1.
  destruct (strip_prefix "http" s1) as [s2|] eqn:H2; [|done].
  apply strip_prefix_length in H2.
  destruct (strip_prefix "s" s2) as [s3|] eqn:H3.
  - apply strip_prefix_length in H3.
    destruct (match_url_tail "https" s3) as [r|] eqn:H4.
    + injection H as ->. apply match_url_tail_length in H4. lia.
    + apply match_url_tail_length in H. lia.
  - apply match_url_tail_length in H. lia.
Qed.

(** Any fuel above the length of the text gives the same matches: the fuel
    [tier_regex] starts with is enough. *)
Lemma regex_exec_all_fuel n : ∀ m s,
  (String.length s < n)%nat → (String.length s < m)%nat →
  regex_exec_all n s = regex_exec_all m s.
Proof.
  induction n as [|n IH]; intros m s Hn Hm; [lia|].
  destruct m as [|m]; [lia|]. cbn [regex_exec_all].
  destruct (match_murl_at s) as [[cap rest]|] eqn:Hmatch.
  - apply match_murl_at_length in Hmatch. f_equal. apply IH; lia.
  - destruct s as [|c s]; [done|]. cbn in Hn, Hm. apply IH; lia.
Qed.

Lemma replace_all_fuel_enough pat by_ n : ∀ m s,
  pat ≠ EmptyString →
  (String.length s < n)%nat → (String.length s < m)%nat →
  replace_all_fuel n pat by_ s = replace_all_fuel m pat by_ s.
Proof.
  induction n as [|n IH]; intros m s Hpat Hn Hm; [lia|].
  destruct m as [|m]; [lia|]. cbn [replace_all_fuel].
  destruct (strip_prefix pat s) as [rest|] eqn:Hp.
  - apply strip_prefix_length in Hp. f_equal. apply IH; [done| |].
    all: destruct pat; [done|]; cbn in Hp; lia.
  - destruct s as [|c s]; [done|]. cbn in Hn, Hm. f_equal. apply IH; [done|lia|lia].
Qed.



End ResolverFacts.

(** ** The retrieval route *)

Module DownloadFacts.
Import Js JsString Download.

Lemma chars_app a b : chars (a +:+ b) = chars a ++ chars b.
Proof.
  unfold chars. induction a as [|c a IH]; [done|].
  change (String c a +:+ b) with (String c (a +:+ b)).
  cbn [list_ascii_of_string app]. by rewrite IH.
Qed.

Lemma chars_concat_cons x l :
  chars (String.concat EmptyString (x :: l)) = chars x ++ chars (String.concat EmptyString l).
Proof.
  unfold chars. destruct l as [|y l].
  - cbn. by rewrite app_nil_r.
  - cbn [String.concat]. fold (chars (x +:+ EmptyString +:+ String.concat EmptyString (y :: l))).
    rewrite !chars_app. done.
Qed.

(** The sanitized identifier keeps the letters and digits, in order, and
    nothing else. *)
Lemma sanitize_keeps_alnum fileId :
  chars (sanitize fileId) = List.filter is_alnum (chars fileId).
Proof.
  unfold sanitize, replace_class.
  induction (chars fileId) as [|c l IH]; [done|].
  cbn [map List.filter]. rewrite chars_concat_cons, IH.
  destruct (is_alnum c); done.
Qed.

Lemma existsSync_file fs p data :
  Fs.entries fs !! p = Some (Fs.File data) → Fs.existsSync fs p = true.
Proof. intros H. unfold Fs.existsSync. rewrite H. apply bool_decide_eq_true. by eexists. Qed.




End DownloadFacts.

(** ** Strings *)

Module StringFacts.
Import JsString.

Lemma app_cons c a b : String c a +:+ b = String c (a +:+ b).
Proof. reflexivity. Qed.

Lemma app_nil_l a : EmptyString +:+ a = a.
Proof. reflexivity. Qed.

Lemma app_nil_r a : a +:+ EmptyString = a.
Proof. induction a as [|c a IH]; [done|]. by rewrite app_cons, IH. Qed.

Lemma app_assoc a b c : (a +:+ b) +:+ c = a +:+ (b +:+ c).
Proof. induction a as [|x a IH]; [done|]. by rewrite !app_cons, IH. Qed.

Lemma length_app a b :
  String.length (a +:+ b) = (String.length a + String.length b)%nat.
Proof. induction a as [|x a IH]; [done|]. rewrite app_cons. cbn. by rewrite IH. Qed.

Lemma chars_append a b : chars (a +:+ b) = chars a ++ chars b.
Proof.
  unfold chars. induction a as [|c a IH]; [done|].
  rewrite app_cons. cbn [list_ascii_of_string app]. by rewrite IH.
Qed.

Lemma chars_concat sep_free : ∀ l,
  chars (String.concat EmptyString (sep_free :: l))
  = chars sep_free ++ chars (String.concat EmptyString l).
Proof.
  intros [|y l].
  - cbn. by rewrite List.app_nil_r.
  - cbn [String.concat]. by rewrite !chars_append.
Qed.

Lemma strip_prefix_app p s : strip_prefix p (p +:+ s) = Some s.
Proof.
  induction p as [|c p IH]; [done|].
  rewrite app_cons. cbn. by rewrite Ascii.eqb_refl.
Qed.

Lemma startsWith_app p s : startsWith p (p +:+ s) = true.
Proof.
  induction p as [|c p IH]; [done|].
  rewrite app_cons. cbn. by rewrite Ascii.eqb_refl.
Qed.

(** A common prefix does not matter to a comparison. *)
Lemma startsWith_same_prefix p a b : startsWith (p +:+ a) (p +:+ b) = startsWith a b.
Proof.
  induction p as [|c p IH]; [done|].
  rewrite !app_cons. cbn. by rewrite Ascii.eqb_refl.
Qed.

Lemma eqb_same_prefix p a b : String.eqb (p +:+ a) (p +:+ b) = String.eqb a b.
Proof.
  induction p as [|c p IH]; [done|].
  rewrite !app_cons. cbn. by rewrite Ascii.eqb_refl.
Qed.

End StringFacts.

(** ** Joining clean segments *)

Module PathFacts.
Import JsString Shape StringFacts.

Lemma split_on_nonempty c s : split_on c s ≠ [].
Proof.
  destruct s as [|d s]; cbn; [done|].
  destruct (Ascii.eqb d c); [done|]. by destruct (split_on c s).
Qed.

Lemma split_on_clean c seg :
  Forall (fun d => d ≠ c) (chars seg) → split_on c seg = [seg].
Proof.
  induction seg as [|d seg IH]; intros H; [done|].
  cbn in H. inversion H as [|? ? Hd Hrest]; subst.
  cbn [split_on]. apply Ascii.eqb_neq in Hd. rewrite Hd, (IH Hrest). done.
Qed.

Lemma split_on_app c a b :
  split_on c (a +:+ String c b) = split_on c a ++ split_on c b.
Proof.
  induction a as [|d a IH].
  - rewrite app_nil_l. cbn. by rewrite Ascii.eqb_refl.
  - rewrite app_cons. cbn [split_on]. rewrite IH.
    destruct (Ascii.eqb d c); [done|].
    pose proof (split_on_nonempty c a). by destruct (split_on c a).
Qed.

Lemma clean_no_slash seg : clean_segment seg → Forall (fun d => d ≠ "/"%char) (chars seg).
Proof. by intros (_ & _ & _ & H). Qed.

Lemma concat_cons2 sep x y l :
  String.concat sep (x :: y :: l) = x +:+ sep +:+ String.concat sep (y :: l).
Proof. reflexivity. Qed.

(** Splitting the joined segments gives the segments back. *)
Lemma split_on_concat segs :
  Forall clean_segment segs → segs ≠ [] →
  split_on "/" (String.concat "/" segs) = segs.
Proof.
  induction segs as [|x segs IH]; intros Hall Hne; [done|].
  inversion Hall as [|? ? Hx Hrest]; subst.
  destruct segs as [|y segs].
  - cbn [String.concat]. apply split_on_clean. by apply clean_no_slash.
  - rewrite concat_cons2.
    change ("/" +:+ ?r) with (String "/" r).
    rewrite split_on_app, (split_on_clean _ x) by (by apply clean_no_slash).
    rewrite IH by done. done.
Qed.

Lemma normalize_segments_clean allowAboveRoot : ∀ l acc,
  Forall (fun s => s = EmptyString ∨ clean_segment s) l →
  Path.normalize_segments allowAboveRoot acc l
  = rev acc ++ filter (fun s => s ≠ EmptyString) l.
Proof.
  induction l as [|seg l IH]; intros acc Hall.
  - cbn. by rewrite List.app_nil_r.
  - inversion Hall as [|? ? Hseg Hrest]; subst. cbn [Path.normalize_segments].
    destruct Hseg as [-> | (Hne & Hdot & Hdots & _)].
    + cbn [String.eqb orb]. rewrite IH by done. by rewrite filter_cons_False by naive_solver.
    + apply String.eqb_neq in Hne, Hdot, Hdots. rewrite Hne, Hdot, Hdots. cbn [orb].
      rewrite IH by done. cbn [rev].
      rewrite filter_cons_True by (by apply String.eqb_neq).
      by rewrite <- List.app_assoc.
Qed.

Lemma concat_snoc segs a :
  String.concat "/" (segs ++ [a])
  = match segs with
    | [] => a
    | _ => String.concat "/" segs +:+ "/" +:+ a
    end.
Proof.
  induction segs as [|x segs IH]; [done|].
  destruct segs as [|y segs]; [done|].
  change ((x :: y :: segs) ++ [a]) with (x :: y :: (segs ++ [a])).
  rewrite !concat_cons2.
  change (y :: segs ++ [a]) with ((y :: segs) ++ [a]). rewrite IH.
  by rewrite !app_assoc.
Qed.

Lemma abs_path_snoc segs a : abs_path (segs ++ [a]) = dir_prefix segs +:+ a.
Proof.
  unfold abs_path. rewrite concat_snoc.
  induction segs as [|x segs IH]; [done|].
  cbn [dir_prefix]. destruct segs as [|y segs].
  - cbn [String.concat dir_prefix]. by rewrite !app_assoc.
  - rewrite concat_cons2, !app_assoc. cbv iota in IH.
    f_equal. f_equal. exact IH.
Qed.

Lemma has_trailing_sep_clean x a :
  clean_segment a → Path.has_trailing_sep (x +:+ a) = false.
Proof.
  intros (Hne & _ & _ & Hslash). unfold Path.has_trailing_sep, last_char.
  rewrite chars_append, last_app.
  destruct (last (chars a)) as [c|] eqn:Hlast.
  - apply Ascii.eqb_neq. rewrite Forall_forall in Hslash.
    apply Hslash. by eapply last_Some_elem_of.
  - apply last_None in Hlast. destruct a; [done|]. done.
Qed.

Lemma slash_join r a :
  ("/" +:+ r) +:+ Path.sep +:+ a = String "/" (r +:+ String "/" a).
Proof. reflexivity. Qed.

Lemma slash_join_parts r a :
  String "/" (r +:+ String "/" a) = ("/" +:+ r +:+ "/") +:+ a.
Proof. change (String "/" (r +:+ String "/" a)) with ("/" +:+ r +:+ "/" +:+ a). by rewrite !app_assoc. Qed.

Lemma has_trailing_sep_joined r a :
  clean_segment a → Path.has_trailing_sep (String "/" (r +:+ String "/" a)) = false.
Proof. intros Ha. rewrite slash_join_parts. by apply has_trailing_sep_clean. Qed.

(** Joining an absolute path of clean segments with one more clean segment
    appends that segment. *)
Lemma join_clean_segment segs a :
  Forall clean_segment segs → clean_segment a →
  Path.join [abs_path segs; a] = abs_path (segs ++ [a]).
Proof.
  intros Hsegs Ha. unfold Path.join.
  assert (Hne : a ≠ EmptyString) by apply Ha.
  rewrite filter_cons_True by done.
  rewrite filter_cons_True by done.
  rewrite filter_nil. cbn [String.concat].
  unfold abs_path at 1. rewrite slash_join.
  unfold Path.normalize.
  change (Path.isAbsolute (String "/" ?r)) with true. cbn [negb].
  rewrite (has_trailing_sep_joined _ _ Ha).
  cbn [split_on]. rewrite Ascii.eqb_refl, split_on_app.
  rewrite (split_on_clean _ a) by (by apply clean_no_slash).
  assert (Hsplit : ∃ l, split_on "/" (String.concat "/" segs) = l ∧
                        Forall (fun s => s = EmptyString ∨ clean_segment s) l ∧
                        filter (fun s => s ≠ EmptyString) l = segs).
  { destruct segs as [|x segs'].
    - exists [EmptyString]. split; [done|]. split; [by repeat constructor|].
      by rewrite filter_cons_False by naive_solver.
    - eexists. split; [by apply split_on_concat|]. split.
      + eapply Forall_impl; [exact Hsegs|]. by right.
      + clear -Hsegs. induction Hsegs as [|y l Hy _ IH]; [done|].
        rewrite filter_cons_True by apply Hy. by rewrite IH. }
  destruct Hsplit as (l & -> & Hl & Hfilter).
  rewrite normalize_segments_clean.
  2:{ constructor; [by left|]. apply Forall_app. split; [done|].
      constructor; [by right | constructor]. }
  cbn [rev app]. rewrite filter_cons_False by naive_solver.
  rewrite filter_app, Hfilter, filter_cons_True, filter_nil by done.
  destruct (String.concat Path.sep (segs ++ [a])) as [|c body] eqn:Hbody.
  - exfalso. unfold Path.sep in Hbody. rewrite concat_snoc in Hbody.
    destruct segs; [done|].
    apply (f_equal String.length) in Hbody. rewrite !length_app in Hbody.
    destruct a; [done|]. cbn in Hbody. lia.
  - unfold abs_path. unfold Path.sep in Hbody. by rewrite Hbody.
Qed.

Lemma rev_snoc_cons {A : Type} (l : list A) x y : rev (x :: l ++ [y]) = y :: rev l ++ [x].
Proof. cbn. by rewrite rev_app_distr. Qed.

(** The directory of such a path is the path without its last segment. *)
Lemma dirname_clean_segment segs a :
  Forall clean_segment segs → clean_segment a →
  Path.dirname (abs_path (segs ++ [a])) = abs_path segs.
Proof.
  intros Hsegs Ha. unfold Path.dirname, abs_path.
  change ("/" +:+ ?r) with (String "/" r). cbn [split_on].
  rewrite Ascii.eqb_refl, split_on_concat.
  2:{ apply Forall_app. split; [done|]. by constructor. }
  2:{ by destruct segs. }
  rewrite rev_snoc_cons.
  destruct (rev segs ++ [EmptyString]) as [|z rinit] eqn:Hr.
  { by destruct (rev segs). }
  rewrite <- Hr, rev_app_distr, rev_involutive. cbn [rev app].
  destruct segs as [|x segs']; [done|].
  cbn [String.concat]. rewrite app_nil_l.
  change (Path.sep +:+ ?r) with (String "/" r). done.
Qed.

Lemma is_within_clean_segment segs a :
  Path.is_within (abs_path segs) (abs_path segs +:+ "/" +:+ a) = true.
Proof.
  unfold Path.is_within.
  rewrite <- (app_assoc (abs_path segs) "/" a), startsWith_app. apply orb_true_r.
Qed.

End PathFacts.

(** ** The image fetcher *)

Module FetcherFacts.
Import Js JsString Process Shape.

Lemma extension_of_fixed contentType : extension_of contentType ∈ fixed_extensions.
Proof.
  unfold extension_of, fixed_extensions.
  repeat (match goal with |- context [if ?b then _ else _] => destruct b end);
    set_solver.
Qed.

(** X1: whatever [downloadImage] returns is viable: the bytes are those of
    a fulfilled request, they are at least 1000, and the extension is one
    of the four fixed ones.  A rejected request gives nothing. *)
Theorem fetched_asset_is_viable env url :
  (∀ a, downloadImage env url = Some a →
     (1000 ≤ Datatypes.length (buffer a))%nat ∧
     extension a ∈ fixed_extensions ∧
     ∃ response, axios_get_image env url = inr response ∧
                 buffer a = response_data response ∧
                 extension a = extension_of (default EmptyString (truthy (content_type response)))) ∧
  (∀ e, axios_get_image env url = inl e → downloadImage env url = None) ∧
  (∀ response, axios_get_image env url = inr response →
     (Datatypes.length (response_data response) < 1000)%nat →
     downloadImage env url = None).
Proof.
  unfold downloadImage. split; [|split].
  - intros a Ha. destruct (axios_get_image env url) as [e|response]; [done|].
    destruct (Datatypes.length (response_data response) <? 1000)%nat eqn:Hlen; [done|].
    injection Ha as <-. cbn [buffer extension].
    apply Nat.ltb_ge in Hlen.
    split; [done|]. split; [apply extension_of_fixed|]. by exists response.
  - intros e ->. done.
  - intros response -> Hlen. apply Nat.ltb_lt in Hlen. by rewrite Hlen.
Qed.

Lemma fetched_asset_is_viable_witness :
  downloadImage Sample.env "http://img/mouse" = Some (mkAsset (Sample.bytes 1200) ".jpg") ∧
  (1000 ≤ Datatypes.length (buffer (mkAsset (Sample.bytes 1200) ".jpg")))%nat.
Proof.
  assert (H : downloadImage Sample.env "http://img/mouse"
              = Some (mkAsset (Sample.bytes 1200) ".jpg")) by (vm_compute; reflexivity).
  split; [exact H|].
  exact (proj1 (proj1 (fetched_asset_is_viable Sample.env "http://img/mouse") _ H)).
Defined.

End FetcherFacts.

(** ** The scan of the raw markup and the search URL *)

Module ScanFacts.
Import Js JsString Process Shape StringFacts.

Lemma take_unquoted_app u rest :
  Forall (fun c => c ≠ dquote) (chars u) →
  take_unquoted (u +:+ String dquote rest) = (u, Some rest).
Proof.
  induction u as [|c u IH]; intros Hu.
  - reflexivity.
  - rewrite app_cons. cbn [take_unquoted].
    inversion Hu as [|? ? Hc Hrest]; subst.
    apply Ascii.eqb_neq in Hc. rewrite Hc, (IH Hrest). done.
Qed.

(** The pattern matches an embedded result at its start and stops after
    the closing double quote. *)
Lemma match_murl_at_embedded url rest :
  capturable url →
  match_murl_at (embedded url +:+ rest) = Some (url, "," +:+ rest).
Proof.
  intros [(tail & c & Hurl) Hq].
  unfold embedded, match_murl_at.
  rewrite !app_assoc, strip_prefix_app.
  assert (Hc : c ≠ dquote ∧ Forall (fun c => c ≠ dquote) (chars tail)).
  { destruct Hurl as [-> | ->]; rewrite chars_append in Hq;
      apply Forall_app in Hq as [_ Hq]; by inversion Hq. }
  destruct Hc as [Hc Htail]. apply Ascii.eqb_neq in Hc.
  destruct Hurl as [-> | ->];
    rewrite !app_assoc, (app_cons dquote ","), (app_cons c tail).
  - change ("http://" +:+ ?x) with ("http" +:+ "://" +:+ x).
    rewrite strip_prefix_app.
    change (strip_prefix "s" ("://" +:+ ?x)) with (@None string). cbv iota.
    unfold match_url_tail. rewrite strip_prefix_app.
    cbn [take_unquoted]. rewrite Hc, (take_unquoted_app _ _ Htail). done.
  - change ("https://" +:+ ?x) with ("http" +:+ "s" +:+ "://" +:+ x).
    rewrite strip_prefix_app, strip_prefix_app.
    unfold match_url_tail. rewrite strip_prefix_app.
    cbn [take_unquoted]. rewrite Hc, (take_unquoted_app _ _ Htail). done.
Qed.

Lemma embedded_page_scan urls : ∀ n,
  Forall capturable urls →
  (String.length (embedded_page urls) < n)%nat →
  regex_exec_all n (embedded_page urls) = urls.
Proof.
  induction urls as [|url urls IH]; intros n Hall Hn.
  - destruct n; [cbn in Hn; lia|]. done.
  - inversion Hall as [|? ? Hurl Hrest]; subst.
    cbn [embedded_page foldr] in *. fold (embedded_page urls) in *.
    rewrite length_app in Hn.
    assert (2 ≤ String.length (embedded url))%nat.
    { unfold embedded. rewrite !length_app. cbn. lia. }
    destruct n as [|[|n]]; [lia|lia|].
    cbn [regex_exec_all]. rewrite (match_murl_at_embedded _ _ Hurl).
    f_equal.
    change ("," +:+ embedded_page urls) with (String ","%char (embedded_page urls)).
    cbn [regex_exec_all].
    change (match_murl_at (String ","%char ?x)) with (@None (string * string)).
    cbv iota. apply IH; [done|lia].
Qed.

(** X2: on markup made of embedded results, each an HTTP or HTTPS URL
    without a double quote, the scan of tier 3 finds exactly these URLs, in
    their order, and puts every escaped slash back. *)
Theorem scan_recovers_embedded_urls urls :
  Forall capturable urls →
  tier_regex (embedded_page urls) = map (replace_all "\u002f" "/") urls.
Proof.
  intros Hall. unfold tier_regex. by rewrite embedded_page_scan by (done || lia).
Qed.

Lemma scan_recovers_embedded_urls_witness :
  Forall capturable ["http://img/k1"; "https://cdn\u002fk2"] ∧
  tier_regex (embedded_page ["http://img/k1"; "https://cdn\u002fk2"])
    = ["http://img/k1"; "https://cdn/k2"].
Proof.
  assert (H : Forall capturable ["http://img/k1"; "https://cdn\u002fk2"]).
  { apply Forall_cons_2; [|apply Forall_cons_2; [|constructor]].
    - split; [exists "mg/k1", "i"%char; by left|].
      vm_compute. repeat constructor; discriminate.
    - split; [exists "dn\u002fk2", "c"%char; by right|].
      vm_compute. repeat constructor; discriminate. }
  split; [exact H|].
  rewrite (scan_recovers_embedded_urls _ H). vm_compute. reflexivity.
Defined.

Lemma startsWith_split p : ∀ s, startsWith p s = true → ∃ x, s = p +:+ x.
Proof.
  induction p as [|c p IH]; intros s H.
  - by exists s.
  - destruct s as [|d s]; [done|]. cbn in H.
    destruct (Ascii.eqb c d) eqn:Hcd; [|done].
    apply Ascii.eqb_eq in Hcd as ->. destruct (IH s H) as [x ->]. by exists x.
Qed.

Lemma match_url_tail_scheme scheme s cap rest :
  match_url_tail scheme s = Some (cap, rest) → ∃ x, cap = scheme +:+ "://" +:+ x.
Proof.
  unfold match_url_tail. intros H.
  destruct (strip_prefix "://" s) as [s'|]; [|done].
  destruct (take_unquoted s') as [[|c u] [r|]]; try done.
  injection H as <- _. by eexists.
Qed.

Lemma match_murl_at_http s cap rest :
  match_murl_at s = Some (cap, rest) → startsWith "http" cap = true.
Proof.
  unfold match_murl_at. intros H.
  destruct (strip_prefix murl_key s) as [s1|]; [|done].
  destruct (strip_prefix "http" s1) as [s2|]; [|done].
  assert (Htail : ∀ scheme t, startsWith "http" scheme = true →
                    match_url_tail scheme t = Some (cap, rest) →
                    startsWith "http" cap = true).
  { intros scheme t Hs Ht. apply match_url_tail_scheme in Ht as [x ->].
    destruct (startsWith_split _ _ Hs) as [y ->].
    rewrite app_assoc. apply startsWith_app. }
  destruct (strip_prefix "s" s2) as [s3|].
  - destruct (match_url_tail "https" s3) as [r|] eqn:H3.
    + injection H as ->. by eapply (Htail "https").
    + by eapply (Htail "http").
  - by eapply (Htail "http").
Qed.

Lemma regex_exec_all_http n : ∀ s,
  Forall (fun u => startsWith "http" u = true) (regex_exec_all n s).
Proof.
  induction n as [|n IH]; intros s; cbn [regex_exec_all]; [constructor|].
  destruct (match_murl_at s) as [[cap rest]|] eqn:Hm.
  - constructor; [by eapply match_murl_at_http | apply IH].
  - destruct s; [constructor | apply IH].
Qed.

(** Putting the escaped slashes back leaves the scheme alone. *)
Lemma unescape_keeps_http u :
  startsWith "http" u = true → startsWith "http" (replace_all "\u002f" "/" u) = true.
Proof.
  intros H. destruct (startsWith_split _ _ H) as [x ->].
  unfold replace_all. rewrite length_app.
  change ("http" +:+ x) with (String "h" (String "t" (String "t" (String "p" x)))).
  cbn. done.
Qed.

Lemma tier_mimg_http env page :
  Forall (fun u => startsWith "http" u = true) (tier_mimg env page).
Proof.
  unfold tier_mimg. induction (cheerio_mimg env page) as [|attrs l IH]; [constructor|].
  cbn [omap list_omap].
  destruct (truthy _) as [s|] eqn:Hs; [|exact IH].
  destruct (startsWith "http" s) eqn:Hh; [|exact IH].
  by constructor.
Qed.

(** X3: the element attributes of tier 1 are taken as they are, but when
    that tier finds nothing, every locator the resolver returns starts with
    http, whether it comes from the image elements or from the scan. *)
Theorem fallback_locators_start_with_http env query page :
  axios_get_page env (search_url query) = inr page →
  tier_iusc env page = [] →
  Forall (fun u => startsWith "http" u = true) (searchBingImages env query).
Proof.
  intros Hpage Hnone. unfold searchBingImages, searchBingImages_try.
  rewrite Hpage, Hnone. cbn [Datatypes.length Nat.eqb app].
  apply Forall_take.
  destruct (tier_mimg env page) as [|u l] eqn:Hm.
  - cbn [Datatypes.length Nat.eqb app]. unfold tier_regex.
    apply Forall_fmap, Forall_forall. intros u Hu.
    apply unescape_keeps_http. revert u Hu. apply Forall_forall, regex_exec_all_http.
  - cbn [Datatypes.length Nat.eqb]. rewrite <- Hm. apply tier_mimg_http.
Qed.

Lemma fallback_locators_start_with_http_witness :
  axios_get_page Sample.env (search_url "Keyboard") = inr Sample.keyboard_page ∧
  tier_iusc Sample.env Sample.keyboard_page = [] ∧
  Forall (fun u => startsWith "http" u = true) (searchBingImages Sample.env "Keyboard").
Proof.
  split; [reflexivity|]. split; [reflexivity|].
  exact (fallback_locators_start_with_http Sample.env "Keyboard" Sample.keyboard_page
           eq_refl eq_refl).
Defined.

Lemma encoded_char_is_query_safe c :
  Forall query_safe
    (chars (if uri_unreserved c then String c EmptyString
            else String "%"%char
                   (String (hex_digit (N_of_ascii c / 16))
                      (String (hex_digit (N_of_ascii c mod 16)) EmptyString)))).
Proof.
  unfold query_safe. destruct (uri_unreserved c) eqn:Hc.
  - apply Forall_cons_2; [by left | constructor].
  - clear Hc. cbn [chars list_ascii_of_string].
    apply Forall_cons_2; [by right|].
    destruct c as [[] [] [] [] [] [] [] []];
      (apply Forall_cons_2; [left; vm_compute; reflexivity|]);
      (apply Forall_cons_2; [left; vm_compute; reflexivity | constructor]).
Qed.

(** X4: the phrase as it enters the search URL consists of unreserved
    characters and percent signs only, so no character of the phrase can end
    the [q] parameter or start another one. *)
Theorem encoded_phrase_is_query_safe query :
  Forall query_safe (chars (encodeURIComponent query)) ∧
  Forall (fun c => c ∉ chars "&=#?/+ ") (chars (encodeURIComponent query)) ∧
  search_url query
    = "https://www.bing.com/images/search?q=" +:+ encodeURIComponent query +:+ "&first=1".
Proof.
  assert (Hsafe : Forall query_safe (chars (encodeURIComponent query))).
  { unfold encodeURIComponent.
    induction (chars query) as [|c l IH]; [constructor|].
    cbn [map]. rewrite chars_concat. apply Forall_app. split; [|exact IH].
    apply encoded_char_is_query_safe. }
  split; [exact Hsafe|]. split; [|reflexivity].
  eapply Forall_impl; [exact Hsafe|].
  intros c [Hc | ->] Hin.
  - vm_compute in Hin.
    repeat (apply elem_of_cons in Hin as [-> | Hin]; [by vm_compute in Hc|]).
    by apply not_elem_of_nil in Hin.
  - vm_compute in Hin.
    repeat (apply elem_of_cons in Hin as [Hin | Hin]; [discriminate|]).
    by apply not_elem_of_nil in Hin.
Qed.

End ScanFacts.

(** ** Decimal numbers, identifiers and clean segments *)

Module NameFacts.
Import Js JsString Process Shape StringFacts PathFacts.

Lemma pretty_N_char_digit x : is_digit (pretty_N_char x) = true.
Proof. unfold pretty_N_char. by repeat case_match. Qed.

Lemma pretty_N_go_digits x : ∀ s,
  Forall (fun c => is_digit c = true) (chars s) →
  Forall (fun c => is_digit c = true) (chars (pretty_N_go x s)).
Proof.
  induction (N.lt_wf_0 x) as [x _ IH]; intros s Hs.
  assert (x = 0 ∨ 0 < x)%N as [-> | Hpos] by lia.
  - by rewrite pretty_N_go_0.
  - rewrite pretty_N_go_step by done. apply IH.
    + by apply N.div_lt.
    + cbn. constructor; [apply pretty_N_char_digit | done].
Qed.

Lemma pretty_N_digits (x : N) : Forall (fun c => is_digit c = true) (chars (pretty x)).
Proof.
  unfold pretty, pretty_N. case_decide.
  - by repeat constructor.
  - apply pretty_N_go_digits. constructor.
Qed.

(** The decimal rendering of a time stamp that is not negative consists
    of digits. *)
Lemma pretty_Z_digits (z : Z) :
  0 ≤ z → Forall (fun c => is_digit c = true) (chars (pretty z)).
Proof.
  intros Hz. destruct z as [|p|p]; [by repeat constructor | | lia].
  apply (pretty_N_digits (Npos p)).
Qed.

(** Any rendering consists of digits and at most a sign. *)
Lemma pretty_Z_no_slash (z : Z) : Forall (fun c => c ≠ "/"%char) (chars (pretty z)).
Proof.
  assert (Hd : ∀ x : N, Forall (fun c => c ≠ "/"%char) (chars (pretty x))).
  { intros x. eapply Forall_impl; [apply pretty_N_digits|]. by intros c Hc ->. }
  destruct z as [|p|p]; [by repeat constructor | apply (Hd (Npos p)) |].
  change (pretty (Z.neg p)) with ("-" +:+ pretty (Npos p)).
  rewrite chars_append. apply Forall_app. split; [by repeat constructor | apply Hd].
Qed.

Lemma pretty_N_go_length x : ∀ s,
  (String.length s ≤ String.length (pretty_N_go x s))%nat.
Proof.
  induction (N.lt_wf_0 x) as [x _ IH]; intros s.
  assert (x = 0 ∨ 0 < x)%N as [-> | Hpos] by lia.
  - by rewrite pretty_N_go_0.
  - rewrite pretty_N_go_step by done.
    etrans; [|apply IH; by apply N.div_lt]. cbn. lia.
Qed.

Lemma pretty_Z_nonempty (z : Z) : 0 ≤ z → pretty z ≠ EmptyString.
Proof.
  intros Hz. destruct z as [|p|p]; [done | | lia].
  change (pretty (Z.pos p)) with (pretty (Npos p)).
  unfold pretty, pretty_N. case_decide; [done|].
  rewrite pretty_N_go_step by lia.
  intros Hempty.
  pose proof (pretty_N_go_length (N.pos p `div` 10)
                (String (pretty_N_char (N.pos p `mod` 10)) EmptyString)) as Hlen.
  rewrite Hempty in Hlen. cbn in Hlen. lia.
Qed.

Lemma digit_is_alnum c : is_digit c = true → is_alnum c = true.
Proof. unfold is_digit, is_alnum. intros ->. by rewrite orb_true_r. Qed.

Lemma concat_cons_empty x l :
  String.concat EmptyString (x :: l) = x +:+ String.concat EmptyString l.
Proof. destruct l; [by rewrite app_nil_r | done]. Qed.

(** Sanitizing changes nothing in an identifier of letters and digits. *)
Lemma sanitize_alnum_id s :
  Forall (fun c => is_alnum c = true) (chars s) → Download.sanitize s = s.
Proof.
  unfold Download.sanitize, replace_class.
  induction s as [|c s IH]; intros H; [done|].
  cbn in H. inversion H as [|? ? Hc Hrest]; subst.
  cbn [chars list_ascii_of_string map]. rewrite concat_cons_empty, Hc. cbn [negb].
  fold (chars s). rewrite (IH Hrest). done.
Qed.

Lemma filter_alnum_no_slash l :
  Forall (fun c => c ≠ "/"%char) (List.filter is_alnum l).
Proof.
  apply List.Forall_forall. intros c [_ Hc]%List.filter_In. by intros ->.
Qed.

Lemma clean_segment_intro seg c rest :
  seg = String c rest → c ≠ "."%char →
  Forall (fun d => d ≠ "/"%char) (chars seg) → clean_segment seg.
Proof.
  intros -> Hc Hslash. split; [done|]. split; [|split; [|done]].
  - intros [= -> _]. done.
  - intros [= -> _]. done.
Qed.

(** The name of an archive is a clean segment whatever the identifier. *)
Lemma archive_name_clean id :
  clean_segment ("images-" +:+ Download.sanitize id +:+ ".zip").
Proof.
  eapply (clean_segment_intro _ "i"%char); [reflexivity | done |].
  rewrite !chars_append, DownloadFacts.sanitize_keeps_alnum.
  repeat (apply Forall_app; split); [by repeat constructor | | by repeat constructor].
  apply filter_alnum_no_slash.
Qed.

Lemma zips_clean : clean_segment "image-downloader-zips".
Proof.
  eapply (clean_segment_intro _ "i"%char); [reflexivity | done |].
  vm_compute. repeat constructor; discriminate.
Qed.

Lemma abs_path_snoc_nonempty segs a :
  segs ≠ [] → abs_path (segs ++ [a]) = abs_path segs +:+ "/" +:+ a.
Proof.
  intros Hne. unfold abs_path. rewrite concat_snoc.
  destruct segs; [done|]. by rewrite app_assoc.
Qed.

End NameFacts.

(** ** Where the retrieval route looks *)

Module StoreFacts.
Import Js JsString Process Shape StringFacts PathFacts NameFacts Download.

(** X5: with the temporary directory an absolute path of clean segments,
    the file the retrieval route looks for lies directly in the artifact
    directory, whatever the identifier holds: its path is that directory, a
    slash, and a name built from the letters and digits of the identifier. *)
Theorem artifact_path_stays_in_store tmpsegs id :
  Forall clean_segment tmpsegs →
  let zipDir := abs_path (tmpsegs ++ ["image-downloader-zips"]) in
  let zipPath := zipPath_of (abs_path tmpsegs) (sanitize id) in
  zipPath = zipDir +:+ "/" +:+ "images-" +:+ sanitize id +:+ ".zip" ∧
  chars (sanitize id) = List.filter is_alnum (chars id) ∧
  Path.dirname zipPath = zipDir ∧
  Path.is_within zipDir zipPath = true.
Proof.
  intros Htmp zipDir zipPath.
  assert (Hdir : Forall clean_segment (tmpsegs ++ ["image-downloader-zips"])).
  { apply Forall_app. split; [done|]. constructor; [apply zips_clean | constructor]. }
  assert (Hpath : zipPath = abs_path ((tmpsegs ++ ["image-downloader-zips"])
                                      ++ ["images-" +:+ sanitize id +:+ ".zip"])).
  { subst zipPath. unfold zipPath_of.
    rewrite (join_clean_segment _ _ Htmp zips_clean).
    by rewrite (join_clean_segment _ _ Hdir (archive_name_clean id)). }
  assert (Hshape : zipPath = zipDir +:+ "/" +:+ "images-" +:+ sanitize id +:+ ".zip").
  { rewrite Hpath. apply abs_path_snoc_nonempty. by destruct tmpsegs. }
  split; [exact Hshape|]. split; [apply DownloadFacts.sanitize_keeps_alnum|].
  split.
  - rewrite Hpath. apply dirname_clean_segment; [done | apply archive_name_clean].
  - rewrite Hshape. apply is_within_clean_segment.
Qed.

Lemma artifact_path_stays_in_store_witness :
  Forall clean_segment ["tmp"] ∧
  zipPath_of (abs_path ["tmp"]) (sanitize "../../etc/passwd")
    = abs_path (["tmp"] ++ ["image-downloader-zips"]) +:+ "/" +:+ "images-"
      +:+ sanitize "../../etc/passwd" +:+ ".zip" ∧
  sanitize "../../etc/passwd" = "etcpasswd".
Proof.
  assert (H : Forall clean_segment ["tmp"]).
  { constructor; [|constructor].
    eapply (clean_segment_intro _ "t"%char); [reflexivity | done |].
    vm_compute. repeat constructor; discriminate. }
  split; [exact H|]. split; [|vm_compute; reflexivity].
  exact (proj1 (artifact_path_stays_in_store ["tmp"] "../../etc/passwd" H)).
Defined.

End StoreFacts.

(** ** The life of the items *)

Module LifecycleFacts.
Import Js JsString Process Shape StringFacts PathFacts NameFacts.
Import ProcessFacts.

Lemma downloadImage_extension env u a :
  downloadImage env u = Some a → extension a ∈ fixed_extensions.
Proof.
  unfold downloadImage. intros H.
  destruct (axios_get_image env u) as [e|response]; [done|].
  destruct (Datatypes.length (response_data response) <? 1000)%nat; [done|].
  injection H as <-. apply FetcherFacts.extension_of_fixed.
Qed.

Lemma advances_refl l : advances l l.
Proof. unfold advances. induction l; constructor; [split; [done | lia] | done]. Qed.

Lemma advances_insert l i x y :
  l !! i = Some x → key_of x = key_of y →
  (rank (item_status x) ≤ rank (item_status y))%nat →
  advances l (<[i := y]> l).
Proof.
  intros Hl Hk Hr. unfold advances.
  rewrite <- (list_insert_id l i x Hl) at 1.
  apply Forall2_insert; [apply advances_refl | done].
Qed.

Lemma chain_app {A : Type} (R : A → A → Prop) l1 x l2 :
  chain R l1 → last l1 = Some x → chain R (x :: l2) → chain R (l1 ++ l2).
Proof.
  induction l1 as [|a l1 IH]; intros H1 Hlast H2; [done|].
  destruct l1 as [|b l1].
  - cbn in Hlast. injection Hlast as ->. exact H2.
  - destruct H1 as [Hab H1]. split; [done|].
    apply IH; [done | | done]. exact Hlast.
Qed.

Lemma snapshots_of_app t t' : snapshots_of (t ++ t') = snapshots_of t ++ snapshots_of t'.
Proof. unfold snapshots_of. apply omap_app. Qed.

Lemma snapshots_of_downloads urls : snapshots_of (map EvDownload urls) = [].
Proof. induction urls as [|u urls IH]; simpl; done. Qed.

Lemma writeFileSync_keeps_files fs p data fs' q :
  Fs.writeFileSync fs p data = inr fs' →
  is_file fs q = true → is_file fs' q = true.
Proof.
  unfold Fs.writeFileSync. intros Hw Hq.
  destruct (Fs.is_dir fs p); [done|].
  destruct (Fs.is_dir fs (Path.dirname p)); [|by destruct (Fs.existsSync fs _)].
  injection Hw as <-. unfold is_file in *. cbn [Fs.entries].
  destruct (decide (p = q)) as [->|Hne]; [by rewrite lookup_insert_eq|].
  by rewrite lookup_insert_ne.
Qed.

(** What an iteration does to the items, the clock and the files. *)
Lemma process_row_effect env tempDir i row it s :
  st_closed s = false → st_items s !! i = Some it →
  ∃ s' final evs,
    process_row env tempDir i row s = (Ret tt, s') ∧
    st_closed s' = false ∧
    st_items s' = <[i := final]> (st_items s) ∧
    key_of final = key_of it ∧
    is_settled final = true ∧
    st_now s ≤ st_now s' ∧
    st_trace s' = st_trace s ++ evs ∧
    snapshots_of evs = [<[i := with_status downloading it]> (st_items s); st_items s'] ∧
    (∀ q, is_file (st_fs s) q = true → is_file (st_fs s') q = true) ∧
    (item_status final = success →
       ∃ ext, ext ∈ fixed_extensions ∧
              is_file (st_fs s') (Path.join [tempDir; rowId_of row +:+ ext]) = true).
Proof.
  intros Hopen Hit.
  destruct (process_row_run env tempDir i row it s Hopen Hit)
    as (s' & final & evs & Hrun & Hopen' & Hitems & Htrace & Hcases).
  exists s', final, (EvWrite (FProgress (<[i:=with_status downloading it]> (st_items s)))
                       :: EvSearch (imageName_of row) :: evs).
  split; [done|]. split; [done|]. split; [done|].
  destruct Hcases as [(_ & -> & -> & Hfs & Hnow)
                     | [(_ & _ & -> & -> & Hfs & Hnow)
                       | (pre & u & post & a & _ & _ & Hu & -> & Hnow & Hw)]].
  - split; [done|]. split; [done|]. split; [lia|]. split; [done|].
    split; [done|]. split; [by rewrite Hfs|]. done.
  - split; [done|]. split; [done|]. split; [lia|]. split; [done|].
    split.
    { change (EvWrite ?f :: EvSearch ?q :: ?l) with ([EvWrite f; EvSearch q] ++ l).
      by rewrite !snapshots_of_app, snapshots_of_downloads. }
    split; [by rewrite Hfs|]. done.
  - assert (Hsnap : snapshots_of
              (EvWrite (FProgress (<[i:=with_status downloading it]> (st_items s)))
               :: EvSearch (imageName_of row)
               :: map EvDownload (pre ++ [u]) ++
                  [EvWriteFile (Path.join [tempDir; rowId_of row +:+ extension a]) (buffer a);
                   EvWrite (FProgress (st_items s')); EvPause 500])
              = [<[i:=with_status downloading it]> (st_items s); st_items s']).
    { change (EvWrite ?f :: EvSearch ?q :: ?l) with ([EvWrite f; EvSearch q] ++ l).
      by rewrite !snapshots_of_app, snapshots_of_downloads. }
    destruct (Fs.writeFileSync (st_fs s) _ (buffer a)) as [e|fs'] eqn:Hwr;
      destruct Hw as [Hfs ->].
    + split; [done|]. split; [done|]. split; [lia|]. split; [done|].
      split; [done|]. split; [by rewrite Hfs|]. done.
    + split; [done|]. split; [done|]. split; [lia|]. split; [done|].
      split; [done|]. split.
      { intros q Hq. rewrite Hfs. by eapply writeFileSync_keeps_files. }
      intros _. exists (extension a). split; [by eapply downloadImage_extension|].
      rewrite Hfs. unfold Fs.writeFileSync in Hwr.
      destruct (Fs.is_dir (st_fs s) (Path.join _)); [done|].
      destruct (Fs.is_dir (st_fs s) (Path.dirname _));
        [|by destruct (Fs.existsSync (st_fs s) _)].
      injection Hwr as <-. unfold is_file. cbn [Fs.entries]. by rewrite lookup_insert_eq.
Qed.

(** The loop, from a state in which the rows still to come are pending:
    it settles every row it is given and touches no other item; each
    snapshot advances on the one before; the last snapshot is the final
    array; a row that ends in success has a file under its id. *)
Lemma rows_loop_lifecycle env tempDir rows : ∀ i s,
  st_closed s = false →
  (i + Datatypes.length rows ≤ Datatypes.length (st_items s))%nat →
  (∀ j it, (i ≤ j)%nat → st_items s !! j = Some it → item_status it = pending) →
  ∃ s' evs,
    rows_loop env tempDir i rows s = (Ret tt, s') ∧
    st_closed s' = false ∧
    st_trace s' = st_trace s ++ evs ∧
    Datatypes.length (st_items s') = Datatypes.length (st_items s) ∧
    (∀ j, (j < i)%nat ∨ (i + Datatypes.length rows ≤ j)%nat →
          st_items s' !! j = st_items s !! j) ∧
    (∀ k row, rows !! k = Some row →
       ∃ it', st_items s' !! (i + k)%nat = Some it' ∧ is_settled it' = true ∧
              (item_status it' = success →
                 ∃ ext, ext ∈ fixed_extensions ∧
                        is_file (st_fs s') (Path.join [tempDir; rowId_of row +:+ ext]) = true)) ∧
    chain advances (st_items s :: snapshots_of evs) ∧
    last (st_items s :: snapshots_of evs) = Some (st_items s') ∧
    st_now s ≤ st_now s' ∧
    (∀ q, is_file (st_fs s) q = true → is_file (st_fs s') q = true).
Proof.
  induction rows as [|row rows IH]; intros i s Hopen Hlen Hpending.
  - exists s, []. cbn. rewrite List.app_nil_r.
    repeat split; done.
  - cbn [Datatypes.length] in Hlen.
    destruct (lookup_lt_is_Some_2 (st_items s) i ltac:(lia)) as [it Hit].
    destruct (process_row_effect env tempDir i row it s Hopen Hit)
      as (s1 & final & evs1 & Hrun1 & Hopen1 & Hitems1 & Hkey & Hsettled & Hnow1
          & Htrace1 & Hsnap1 & Hfiles1 & Hsucc1).
    assert (Hlen1 : Datatypes.length (st_items s1) = Datatypes.length (st_items s))
      by (by rewrite Hitems1, length_insert).
    destruct (IH (S i) s1 Hopen1 ltac:(lia)) as
      (s2 & evs2 & Hrun2 & Hopen2 & Htrace2 & Hlen2 & Hsame2 & Hrows2 & Hchain2
       & Hlast2 & Hnow2 & Hfiles2).
    { intros j it' Hj Hlook. rewrite Hitems1, list_lookup_insert_ne in Hlook by lia.
      eapply Hpending; [|done]. lia. }
    exists s2, (evs1 ++ evs2).
    cbn [rows_loop]. rewrite bind_run, Hrun1, Hrun2.
    split; [done|]. split; [done|].
    split; [by rewrite Htrace2, Htrace1, List.app_assoc|].
    split; [lia|].
    split.
    { intros j Hj. cbn [Datatypes.length] in Hj. rewrite Hsame2 by lia. rewrite Hitems1.
      apply list_lookup_insert_ne. lia. }
    split.
    { intros [|k] row' Hk.
      - cbn in Hk. injection Hk as <-. rewrite Nat.add_0_r.
        exists final. rewrite Hsame2 by lia.
        rewrite Hitems1, (lookup_insert_same _ _ it) by done.
        split; [done|]. split; [done|].
        intros Hs. destruct (Hsucc1 Hs) as (ext & Hext & Hfile).
        exists ext. split; [done|]. by apply Hfiles2.
      - cbn in Hk. destruct (Hrows2 k row' Hk) as (it' & Hlook & Hrest).
        exists it'. by rewrite <- Nat.add_succ_comm. }
    split.
    { rewrite snapshots_of_app, Hsnap1.
      apply (chain_app advances [st_items s; _; st_items s1] (st_items s1)); [|done|done].
      assert (Hpend := Hpending i it ltac:(lia) Hit).
      split; [|split; [|done]].
      - eapply advances_insert; [done | done |]. cbn. rewrite Hpend. cbn. lia.
      - rewrite Hitems1.
        rewrite <- (list_insert_insert_eq (st_items s) i final (with_status downloading it)).
        eapply advances_insert.
        + by eapply lookup_insert_same.
        + done.
        + cbn. unfold is_settled in Hsettled. destruct (item_status final); done || (cbn; lia). }
    split.
    { rewrite snapshots_of_app, Hsnap1.
      change (st_items s :: [?a; ?b] ++ ?l) with ([st_items s; a] ++ b :: l).
      rewrite last_app. change (st_items s1 :: snapshots_of evs2) with
        (st_items s1 :: snapshots_of evs2). by rewrite Hlast2. }
    split; [lia|].
    intros q Hq. by apply Hfiles2, Hfiles1.
Qed.

End LifecycleFacts.

(** ** The request as a whole *)

Module BatchFacts.
Import Js JsString Process Shape StringFacts PathFacts NameFacts LifecycleFacts.
Import ProcessFacts.

Lemma rmSync_keeps_outside fs p fs' q x :
  Fs.rmSync fs p = inr fs' → Path.is_within p q = false →
  Fs.entries fs !! q = Some x → Fs.entries fs' !! q = Some x.
Proof.
  unfold Fs.rmSync. intros Hrm Hout Hq.
  destruct (bool_decide (p ∈ Fs.busy fs)); [done|].
  injection Hrm as <-. cbn [Fs.entries].
  by apply map_lookup_filter_Some_2.
Qed.

(** The tail of the [try] block once more, with what it leaves behind:
    the items are not touched, and an archive the output closed on is in
    the file system afterwards, provided its path is not within the working
    directory that is removed. *)
Lemma finish_batch_effect env tempDir s :
  st_closed s = false →
  Fs.is_dir (st_fs s) tempDir = true →
  let zip := finalZipPath_of env (pretty (st_now s)) in
  let url := "/api/download?id=" +:+ pretty (st_now s) in
  ∃ r s' entries evs,
    finish_batch env tempDir s = (r, s') ∧
    st_closed s' = false ∧
    st_items s' = st_items s ∧
    st_trace s' = st_trace s ++ EvMkdir (zipDir_of env) :: evs ∧
    ( (∃ e, r = Throw e ∧ evs = [EvArchive entries zip (ArchiveError e)])
    ∨ (∃ z size, r = Ret tt ∧
         evs = [EvArchive entries zip (OutputClosed z); EvExists zip true;
                EvLog (zip_created_line zip size);
                EvWrite (FComplete url); EvRm tempDir] ∧
         (∀ b, z = Some b → Path.is_within tempDir zip = false →
               Fs.entries (st_fs s') !! zip = Some (Fs.File b)))
    ∨ (r = Ret tt ∧
         evs = [EvArchive entries zip (OutputClosed None); EvExists zip false;
                EvWrite (FError "Failed to create ZIP file"); EvRm tempDir]) ).
Proof.
  intros Hopen Hdir zip url.
  unfold finish_batch, build_archive, Date_now, fs_mkdirSync, fs_readdirSync,
    run_archiver, fs_existsSync, fs_statSync_size, console_log, sendComplete,
    sendError, writer_write, try_catch, fs_rmSync, mbind, M_bind, mret, M_ret.
  state_simpl.
  fold zip. fold url.
  unfold Fs.readdirSync at 1.
  rewrite (mkdirSync_keeps_dirs _ _ _ Hdir).
  match goal with |- context [archiver_run env ?f ?es] =>
    set (entries := es); destruct (archiver_run env f entries) as [[b|] | e] eqn:Harch end.
  - state_simpl. rewrite existsSync_insert. state_simpl. rewrite Hopen. state_simpl.
    match goal with |- context [Fs.rmSync ?f ?p] => destruct (Fs.rmSync f p) eqn:Hrm end.
    all: eexists _, _, entries, _; (split; [reflexivity|]); cbn; (split; [done|]).
    all: (split; [done|]).
    all: (split; [rewrite <- !List.app_assoc; cbn; reflexivity|]).
    all: right; left; eexists (Some b), _; (split; [done|]); (split; [done|]).
    all: intros b' [= <-] Hout.
    + apply lookup_insert_eq.
    + eapply rmSync_keeps_outside; [exact Hrm | done |]. cbn. apply lookup_insert_eq.
  - state_simpl.
    match goal with |- context [Fs.existsSync ?f zip] => destruct (Fs.existsSync f zip) end.
    all: state_simpl.
    all: rewrite Hopen; state_simpl.
    all: match goal with |- context [Fs.rmSync ?f ?p] => destruct (Fs.rmSync f p) end.
    all: eexists _, _, entries, _; (split; [reflexivity|]); cbn; (split; [done|]).
    all: (split; [done|]).
    all: (split; [rewrite <- !List.app_assoc; cbn; reflexivity|]).
    1,2: right; left; eexists None, _; (split; [done|]); (split; [done|]); done.
    all: right; right; done.
  - eexists _, _, entries, _. split; [reflexivity|]. cbn. split; [done|].
    split; [done|].
    split; [rewrite <- !List.app_assoc; cbn; reflexivity|].
    left. exists e. done.
Qed.

(** How the handler wraps the loop and the tail for a table that passes
    validation. *)
Lemma POST_valid_unfold env firstRow rest fs now s1 r2 s2 :
  has_key "id" firstRow = true → has_key "image_name" firstRow = true →
  let data := firstRow :: rest in
  rows_loop env (tempDir_of env now) 0 data (loop_entry env data fs now) = (Ret tt, s1) →
  finish_batch env (tempDir_of env now) s1 = (r2, s2) →
  st_closed s2 = false →
  let result := POST env (FormData (Some (Sheet data))) fs now in
  result.1 = Ret tt ∧
  st_trace result.2 = st_trace s2 ++ catch_events r2 ++ [EvClose true] ∧
  st_items result.2 = st_items s2 ∧
  st_fs result.2 = st_fs s2.
Proof.
  intros Hid Hname data Hloop Hfin Hopen2 result.
  subst result. unfold POST, handler, try_finally, try_catch, handler_try.
  fold data. cbn [data]. rewrite Hid, Hname. cbn [negb orb].
  fold data.
  unfold run_batch, init_items, progressItems, sendProgress, writer_write, Date_now,
    fs_mkdirSync, mbind, M_bind.
  cbn [st_closed initial_state set_items st_items st_now log st_fs].
  unfold loop_entry in Hloop. rewrite Hloop, Hfin.
  destruct r2 as [[]|e]; cbn [catch_events].
  - unfold writer_close. rewrite Hopen2. cbn. done.
  - unfold sendError, writer_write, writer_close. rewrite Hopen2. cbn.
    rewrite Hopen2. cbn. rewrite <- List.app_assoc. done.
Qed.

Lemma initial_items_pending data j it :
  map initial_item data !! j = Some it → item_status it = pending.
Proof.
  revert j. induction data as [|row data IH]; intros [|j] H; cbn in H; try done.
  - by injection H as <-.
  - by eapply IH.
Qed.

(** The loop as the handler enters it. *)
Lemma entered_loop env data fs now :
  let s0 := loop_entry env data fs now in
  ∃ s1 evs,
    rows_loop env (tempDir_of env now) 0 data s0 = (Ret tt, s1) ∧
    st_closed s1 = false ∧
    st_trace s1 = [EvWrite (FProgress (map initial_item data)); EvMkdir (tempDir_of env now)]
                  ++ evs ∧
    forallb is_row_event evs = true ∧
    Fs.is_dir (st_fs s1) (tempDir_of env now) = true ∧
    Datatypes.length (st_items s1) = Datatypes.length data ∧
    (∀ k row, data !! k = Some row →
       ∃ it', st_items s1 !! k = Some it' ∧ is_settled it' = true ∧
              (item_status it' = success →
                 ∃ ext, ext ∈ fixed_extensions ∧
                        is_file (st_fs s1)
                          (Path.join [tempDir_of env now; rowId_of row +:+ ext]) = true)) ∧
    chain advances (map initial_item data :: snapshots_of evs) ∧
    last (map initial_item data :: snapshots_of evs) = Some (st_items s1) ∧
    now ≤ st_now s1.
Proof.
  intros s0.
  assert (Hlen0 : (0 + Datatypes.length data ≤ Datatypes.length (st_items s0))%nat).
  { subst s0. cbn. rewrite length_map. lia. }
  destruct (rows_loop_run env (tempDir_of env now) data 0 s0 eq_refl Hlen0) as
    (s1 & evs & Hloop & Hopen1 & _ & Ht1 & Hev & _ & _ & _ & _ & Hd).
  destruct (rows_loop_lifecycle env (tempDir_of env now) data 0 s0 eq_refl Hlen0) as
    (s1' & evs' & Hloop' & _ & Ht1' & Hlen1 & _ & Hrows & Hchain & Hlast & Hnow & _).
  { intros j it _ Hj. subst s0. cbn in Hj. by eapply initial_items_pending. }
  rewrite Hloop in Hloop'. injection Hloop' as <-.
  rewrite Ht1 in Ht1'. apply app_inv_head in Ht1' as <-.
  exists s1, evs.
  split; [done|]. split; [done|]. split; [by rewrite Ht1|]. split; [done|].
  split; [apply Hd; subst s0; cbn [st_fs set_fs loop_entry]; apply mkdirSync_makes_dir|].
  split; [rewrite Hlen1; subst s0; cbn; apply length_map|].
  split; [exact Hrows|]. split; [exact Hchain|]. split; [exact Hlast|]. exact Hnow.
Qed.

Lemma row_events_no_archive evs entries zip outcome :
  forallb is_row_event evs = true → EvArchive entries zip outcome ∉ evs.
Proof.
  intros Hall Hin. rewrite forallb_forall in Hall.
  apply list_elem_of_In in Hin. by apply Hall in Hin.
Qed.





(** X7: when the row loop ends, every row it marked success has a file
    whose path is the working directory joined with the row's id followed
    by one of the four extensions. *)
Theorem successful_rows_have_files env data fs now :
  ∃ s1, rows_loop env (tempDir_of env now) 0 data (loop_entry env data fs now) = (Ret tt, s1) ∧
    ∀ k row cause,
      data !! k = Some row → settled_at k s1 = Some (success, cause) →
      ∃ ext, ext ∈ fixed_extensions ∧
             is_file (st_fs s1) (Path.join [tempDir_of env now; rowId_of row +:+ ext]) = true.
Proof.
  destruct (entered_loop env data fs now)
    as (s1 & evs & Hloop & _ & _ & _ & _ & _ & Hrows & _).
  exists s1. split; [done|].
  intros k row cause Hrow Hs.
  destruct (Hrows k row Hrow) as (it' & Hit' & _ & Hfile).
  apply Hfile. unfold settled_at, settled_in in Hs. rewrite Hit' in Hs.
  cbn in Hs. by injection Hs as -> _.
Qed.

Lemma successful_rows_have_files_witness :
  ∃ s1,
    rows_loop Sample.env (tempDir_of Sample.env 17) 0 Sample.three_rows
              (loop_entry Sample.env Sample.three_rows Sample.host 17) = (Ret tt, s1) ∧
    settled_at 0 s1 = Some (success, None) ∧
    ∃ ext, ext ∈ fixed_extensions ∧
           is_file (st_fs s1)
             (Path.join [tempDir_of Sample.env 17;
                         rowId_of (Sample.row (CNum 1) "Laptop") +:+ ext]) = true.
Proof.
  destruct (successful_rows_have_files Sample.env Sample.three_rows Sample.host 17)
    as (s1 & Hloop & Hfiles).
  exists s1. split; [exact Hloop|].
  assert (Hs : settled_at 0 s1 = Some (success, None)).
  { assert (Hrun : rows_loop Sample.env (tempDir_of Sample.env 17) 0 Sample.three_rows
                     (loop_entry Sample.env Sample.three_rows Sample.host 17)
                   = (Ret tt, (rows_loop Sample.env (tempDir_of Sample.env 17) 0
                                 Sample.three_rows
                                 (loop_entry Sample.env Sample.three_rows Sample.host 17)).2))
      by (vm_compute; reflexivity).
    rewrite Hrun in Hloop. injection Hloop as <-. vm_compute. reflexivity. }
  split; [exact Hs|].
  exact (Hfiles 0%nat (Sample.row (CNum 1) "Laptop") None eq_refl Hs).
Defined.

End BatchFacts.

(** ** From the complete frame to the retrieval route *)

Module RoundTripFacts.
Import Js JsString Process Shape StringFacts PathFacts NameFacts LifecycleFacts BatchFacts.
Import ProcessFacts.

Lemma dir_prefix_snoc segs a : dir_prefix (segs ++ [a]) = dir_prefix segs +:+ a +:+ "/".
Proof.
  induction segs as [|x segs IH]; [done|].
  cbn [app dir_prefix]. rewrite IH. by rewrite !app_assoc.
Qed.

Lemma working_name_clean (now : Z) : clean_segment ("image-download-" +:+ pretty now).
Proof.
  eapply (clean_segment_intro _ "i"%char); [reflexivity | done |].
  rewrite chars_append. apply Forall_app. split; [by repeat constructor|].
  apply pretty_Z_no_slash.
Qed.

Lemma issued_name_clean (now : Z) : clean_segment ("images-" +:+ pretty now +:+ ".zip").
Proof.
  eapply (clean_segment_intro _ "i"%char); [reflexivity | done |].
  rewrite !chars_append.
  repeat (apply Forall_app; split); [by repeat constructor | | by repeat constructor].
  apply pretty_Z_no_slash.
Qed.

(** The archive of a request is not inside the working directory of a
    request: the two paths part after the temporary directory. *)
Lemma working_dir_apart tmpsegs (now now' : Z) :
  Forall clean_segment tmpsegs →
  Path.is_within
    (Path.join [abs_path tmpsegs; "image-download-" +:+ pretty now])
    (Path.join [Path.join [abs_path tmpsegs; "image-downloader-zips"];
                "images-" +:+ pretty now' +:+ ".zip"]) = false.
Proof.
  intros Htmp.
  assert (Hdir : Forall clean_segment (tmpsegs ++ ["image-downloader-zips"])).
  { apply Forall_app. split; [done|]. constructor; [apply zips_clean | constructor]. }
  rewrite (join_clean_segment _ _ Htmp (working_name_clean now)).
  rewrite (join_clean_segment _ _ Htmp zips_clean).
  rewrite (join_clean_segment _ _ Hdir (issued_name_clean now')).
  rewrite !abs_path_snoc, dir_prefix_snoc.
  unfold Path.is_within.
  change "image-download-" with ("image-download" +:+ "-").
  change "image-downloader-zips" with ("image-download" +:+ "er-zips").
  rewrite !app_assoc.
  rewrite eqb_same_prefix, startsWith_same_prefix.
  rewrite eqb_same_prefix, startsWith_same_prefix.
  reflexivity.
Qed.

Lemma GET_serves_file tmpdir fileId fs b :
  fileId ≠ EmptyString →
  Fs.entries fs !! Download.zipPath_of tmpdir (Download.sanitize fileId) = Some (Fs.File b) →
  (Download.GET tmpdir (Some fileId) fs).1
    = inr (Download.mkResponse 200 (Download.zip_headers b) (Download.Binary b)).
Proof.
  intros Hne Hfile. unfold Download.GET.
  assert (truthy (Some fileId) = Some fileId) as -> by (by destruct fileId).
  rewrite (DownloadFacts.existsSync_file _ _ _ Hfile). cbn [negb].
  unfold Fs.readFileSync. rewrite Hfile. done.
Qed.

Lemma issued_id_is_kept (now : Z) : 0 ≤ now → Download.sanitize (pretty now) = pretty now.
Proof.
  intros Hnow. apply sanitize_alnum_id.
  eapply Forall_impl; [apply (pretty_Z_digits now Hnow)|].
  intros c. apply digit_is_alnum.
Qed.

(** X8: the handle of the complete frame retrieves the archive.  With the
    temporary directory an absolute path of clean segments and a clock that
    is not negative, a request whose archive output closed on a file ends
    its frames with a complete frame, and the retrieval route, given the
    identifier of that frame and the file system the request left, answers
    200 with the bytes of the archive. *)
Theorem issued_handle_retrieves_archive env tmpsegs firstRow rest fs now
        entries zipPath b :
  has_key "id" firstRow = true → has_key "image_name" firstRow = true →
  os_tmpdir env = abs_path tmpsegs → Forall clean_segment tmpsegs →
  0 ≤ now →
  let result := POST env (FormData (Some (Sheet (firstRow :: rest)))) fs now in
  EvArchive entries zipPath (OutputClosed (Some b)) ∈ st_trace result.2 →
  ∃ fileId,
    last (frames_of (st_trace result.2))
      = Some (FComplete ("/api/download?id=" +:+ fileId)) ∧
    (Download.GET (os_tmpdir env) (Some fileId) (st_fs result.2)).1
      = inr (Download.mkResponse 200 (Download.zip_headers b) (Download.Binary b)).
Proof.
  intros Hid Hname Htmp Hclean Hnow result Hin.
  set (data := firstRow :: rest) in *.
  destruct (entered_loop env data fs now)
    as (s1 & evs & Hloop & Hopen1 & Ht1 & Hev & Hdir & _ & _ & _ & _ & Hnow1).
  destruct (finish_batch_effect env (tempDir_of env now) s1 Hopen1 Hdir)
    as (r2 & s2 & entries0 & evs2 & Hfin & Hopen2 & _ & Ht2 & Hcases).
  destruct (POST_valid_unfold env firstRow rest fs now s1 r2 s2 Hid Hname Hloop Hfin Hopen2)
    as (_ & Htrace & _ & Hfs).
  fold data in Htrace, Hfs. fold result in Htrace, Hfs.
  assert (Hapart : Path.is_within (tempDir_of env now)
                     (finalZipPath_of env (pretty (st_now s1))) = false).
  { unfold tempDir_of, finalZipPath_of, zipDir_of. rewrite Htmp.
    by apply working_dir_apart. }
  rewrite Htrace, Ht2, Ht1 in Hin |- *.
  pose proof (row_events_no_archive evs entries zipPath (OutputClosed (Some b)) Hev) as Hnot.
  destruct Hcases as [(e & -> & ->) | [(z & size & -> & -> & Hfile) | (-> & ->)]];
    cbn [catch_events] in Hin |- *.
  - exfalso. decompose_list_elem_of; done.
  - assert (Hz : z = Some b ∧ zipPath = finalZipPath_of env (pretty (st_now s1))).
    { decompose_list_elem_of; try done.
      match goal with H : EvArchive _ _ _ = EvArchive _ _ _ |- _ => by injection H as _ -> -> end. }
    destruct Hz as [-> ->].
    exists (pretty (st_now s1)). split.
    + rewrite !frames_of_app. cbn. rewrite List.app_nil_r, app_comm_cons.
      apply last_snoc.
    + apply GET_serves_file; [apply pretty_Z_nonempty; lia|].
      rewrite issued_id_is_kept by lia. rewrite Hfs.
      by apply Hfile.
  - exfalso. decompose_list_elem_of; done.
Qed.

Lemma issued_handle_retrieves_archive_witness :
  ∃ fileId,
    last (frames_of (st_trace
            (POST Sample.env (FormData (Some (Sheet Sample.three_rows))) Sample.host 17).2))
      = Some (FComplete ("/api/download?id=" +:+ fileId)) ∧
    (Download.GET "/tmp" (Some fileId)
       (st_fs (POST Sample.env (FormData (Some (Sheet Sample.three_rows))) Sample.host 17).2)).1
      = inr (Download.mkResponse 200 (Download.zip_headers (Sample.bytes 24))
                                 (Download.Binary (Sample.bytes 24))).
Proof.
  assert (Hclean : Forall clean_segment ["tmp"]).
  { constructor; [|constructor].
    eapply (clean_segment_intro _ "t"%char); [reflexivity | done |].
    vm_compute. repeat constructor; discriminate. }
  assert (Hnow : 0 ≤ 17) by lia.
  apply (issued_handle_retrieves_archive Sample.env ["tmp"]
           (Sample.row (CNum 1) "Laptop")
           [Sample.row (CNum 2) "zzqqxx"; Sample.row (CNum 3) "Mouse"]
           Sample.host 17
           [("/tmp/image-download-17/3.jpg", "3.jpg"); ("/tmp/image-download-17/1.png", "1.png")]
           "/tmp/image-downloader-zips/images-1017.zip"
           (Sample.bytes 24) eq_refl eq_refl eq_refl Hclean Hnow).
  apply list_elem_of_In. vm_compute.
  repeat (first [left; reflexivity | right]).
Defined.

End RoundTripFacts.

(** ** Where a row's file goes *)

Module RowFacts.
Import Js JsString Process Shape StringFacts PathFacts NameFacts LifecycleFacts.
Import ProcessFacts.

(** An id without a slash, followed by one of the extensions, is a clean
    segment: the extension makes it longer than a dot or two. *)
Lemma file_name_clean id ext :
  Forall (fun c => c ≠ "/"%char) (chars id) → ext ∈ fixed_extensions →
  clean_segment (id +:+ ext).
Proof.
  intros Hid Hext.
  assert (Hlen : (4 ≤ String.length (id +:+ ext))%nat).
  { rewrite length_app. unfold fixed_extensions in Hext.
    decompose_list_elem_of; subst ext; cbn; lia. }
  assert (Hslash : Forall (fun c => c ≠ "/"%char) (chars ext)).
  { unfold fixed_extensions in Hext.
    decompose_list_elem_of; subst ext; vm_compute; repeat constructor; discriminate. }
  split; [|split; [|split]].
  - intros Heq. rewrite Heq in Hlen. cbn in Hlen. lia.
  - intros Heq. rewrite Heq in Hlen. cbn in Hlen. lia.
  - intros Heq. rewrite Heq in Hlen. cbn in Hlen. lia.
  - rewrite chars_append. by apply Forall_app.
Qed.



End RowFacts.

(** ** The shape of the stream *)

Module StreamFacts.
Import Js JsString Process Shape LifecycleFacts BatchFacts.
Import ProcessFacts.

Lemma row_events_progress_frames evs :
  forallb is_row_event evs = true → Forall (fun f => is_progress f = true) (frames_of evs).
Proof.
  induction evs as [|ev evs IH]; [constructor|].
  cbn [forallb]. intros [Hev Hrest]%andb_true_iff.
  destruct ev as [[]| | | | | | | | | |]; cbn in Hev |- *; try done; try by apply IH.
  constructor; [done | by apply IH].
Qed.

(** The trace of any request: events whose frames are progress frames,
    then the write of one frame that is not a progress frame, then events
    that write nothing, then the first close and nothing but closes. *)
Lemma trace_shape env request fs now :
  ∃ before terminal between after,
    st_trace (POST env request fs now).2
      = before ++ [EvWrite terminal] ++ between ++ EvClose true :: after ∧
    Forall (fun f => is_progress f = true) (frames_of before) ∧
    is_progress terminal = false ∧
    frames_of between = [] ∧
    forallb is_close after = true.
Proof.
  destruct request as [e | [[e | [|firstRow rest]] | ]].
  - exists [], (FError (message_or "An error occurred" e)), [], []. cbn. done.
  - exists [], (FError (message_or "An error occurred" e)), [], []. cbn. done.
  - exists [], (FError "Excel file is empty"), [], [EvClose false]. cbn. done.
  - destruct (negb (has_key "id" firstRow) || negb (has_key "image_name" firstRow)) eqn:Hkeys.
    + eexists [], _, [], [EvClose false].
      unfold POST, handler, try_finally, try_catch, handler_try. rewrite Hkeys.
      cbn. done.
    + apply orb_false_iff in Hkeys as [Hid%negb_false_iff Hname%negb_false_iff].
      set (data := firstRow :: rest).
      destruct (entered_loop env data fs now)
        as (s1 & evs & Hloop & Hopen1 & Ht1 & Hev & Hdir & _).
      destruct (finish_batch_effect env (tempDir_of env now) s1 Hopen1 Hdir)
        as (r2 & s2 & entries0 & evs2 & Hfin & Hopen2 & _ & Ht2 & Hcases).
      destruct (POST_valid_unfold env firstRow rest fs now s1 r2 s2 Hid Hname Hloop Hfin Hopen2)
        as (_ & Htrace & _).
      fold data in Htrace. rewrite Htrace, Ht2, Ht1.
      pose proof (row_events_progress_frames evs Hev) as Hprog.
      destruct Hcases as [(e & -> & ->) | [(z & size & -> & -> & _) | (-> & ->)]];
        cbn [catch_events].
      * match goal with
        | |- ∃ _ _ _ _, (?P ++ [?a; ?b]) ++ [EvWrite ?t] ++ _ = _ ∧ _ =>
            exists (P ++ [a; b]), t, [], []
        end.
        split; [reflexivity|].
        split; [|done]. rewrite !frames_of_app. cbn. rewrite List.app_nil_r.
        by constructor.
      * match goal with
        | |- ∃ _ _ _ _, (?P ++ [?a; ?b; ?c; ?d; EvWrite ?t; ?r]) ++ _ = _ ∧ _ =>
            exists (P ++ [a; b; c; d]), t, [r], []
        end.
        split; [by rewrite <- !List.app_assoc|].
        split; [|done]. rewrite !frames_of_app. cbn. rewrite List.app_nil_r.
        by constructor.
      * match goal with
        | |- ∃ _ _ _ _, (?P ++ [?a; ?b; ?c; EvWrite ?t; ?r]) ++ _ = _ ∧ _ =>
            exists (P ++ [a; b; c]), t, [r], []
        end.
        split; [by rewrite <- !List.app_assoc|].
        split; [|done]. rewrite !frames_of_app. cbn. rewrite List.app_nil_r.
        by constructor.
  - exists [], (FError "No file uploaded"), [], [EvClose false]. cbn. done.
Qed.

Lemma closes_write_nothing after : forallb is_close after = true → frames_of after = [].
Proof.
  induction after as [|ev after IH]; [done|].
  cbn [forallb]. intros [Hev Hrest]%andb_true_iff.
  destruct ev; try done. by apply IH.
Qed.

Lemma frames_of_shape before terminal between after :
  frames_of between = [] → forallb is_close after = true →
  frames_of (before ++ [EvWrite terminal] ++ between ++ EvClose true :: after)
    = frames_of before ++ [terminal] ∧
  frames_of (before ++ [EvWrite terminal] ++ between) = frames_of before ++ [terminal].
Proof.
  intros Hquiet Hclose. rewrite !frames_of_app, Hquiet.
  change (frames_of (EvClose true :: after)) with (frames_of after).
  change (frames_of [EvWrite terminal]) with [terminal].
  by rewrite (closes_write_nothing after Hclose), !List.app_nil_r.
Qed.


End StreamFacts.

(** ** What the retrieval route leaves alone *)

Module RetrievalFacts.
Import Js JsString Download.

(** X11: the retrieval route changes nothing but the artifact it serves.
    Whatever the identifier and the file system, the set of protected paths
    is the same afterwards, every path other than the one built from the
    sanitized identifier holds what it held before, and nothing exists
    afterwards that did not exist before. *)
Theorem retrieval_touches_only_artifact tmpdir id fs :
  let fs' := (GET tmpdir id fs).2 in
  Fs.busy fs' = Fs.busy fs ∧
  (∀ q, (∀ fileId, id = Some fileId → q ≠ zipPath_of tmpdir (sanitize fileId)) →
        Fs.entries fs' !! q = Fs.entries fs !! q) ∧
  (∀ q node, Fs.entries fs' !! q = Some node → Fs.entries fs !! q = Some node).
Proof.
  intros fs'. subst fs'. unfold GET.
  destruct (truthy id) as [fileId|] eqn:Hid; [|done].
  assert (id = Some fileId) as ->.
  { destruct id as [[|c rest]|]; cbn in Hid; congruence. }
  set (zipPath := zipPath_of tmpdir (sanitize fileId)).
  destruct (negb (Fs.existsSync fs zipPath)); [done|].
  destruct (Fs.readFileSync fs zipPath) as [e|zipBuffer]; [done|].
  unfold Fs.unlinkSync.
  destruct (Fs.entries fs !! zipPath) as [[|data]|] eqn:Hlook; [done| |done].
  destruct (bool_decide (zipPath ∈ Fs.busy fs)); [done|].
  cbn [snd Fs.busy Fs.entries]. split; [done|]. split.
  - intros q Hq. apply lookup_delete_ne. intros Heq. by apply (Hq fileId).
  - intros q node Hq. apply lookup_delete_Some in Hq. tauto.
Qed.

Lemma retrieval_touches_only_artifact_witness :
  Fs.entries (GET "/tmp" (Some "17") Sample.store).2 !! "/tmp/image-downloader-zips"
    = Some Fs.Dir ∧
  Fs.entries (GET "/tmp" (Some "17") Sample.store).2
    !! "/tmp/image-downloader-zips/images-17.zip" = None.
Proof.
  destruct (retrieval_touches_only_artifact "/tmp" (Some "17") Sample.store)
    as (_ & Hkeep & _).
  split; [|vm_compute; reflexivity].
  rewrite (Hkeep "/tmp/image-downloader-zips").
  - vm_compute. reflexivity.
  - intros fileId [= <-]. vm_compute. discriminate.
Defined.

End RetrievalFacts.

(** ** The page reading the stream of the processing route *)

Module PageFacts.
Import Js JsString Process Shape Page.
Import ProcessFacts LifecycleFacts BatchFacts StreamFacts.

Lemma read_chunk_parsed b text h :
  read_chunk b h text = foldl (fun h data => dispatch data h) h (omap (JSON_parse b) (lines_of text)).
Proof.
  unfold read_chunk. revert h.
  induction (lines_of text) as [|line lines IH]; intros h; [done|].
  cbn [foldl]. rewrite IH. unfold read_line. simpl.
  destruct (JSON_parse b line); done.
Qed.

(** Reading the chunks is dispatching the frames they deliver, in order. *)
Lemma read_body_delivered b chunks h :
  read_body b chunks h = foldl (fun h data => dispatch data h) h (delivered b chunks).
Proof.
  unfold read_body, delivered. revert h.
  induction chunks as [|text chunks IH]; intros h; [done|].
  cbn [foldl map concat]. rewrite omap_app, foldl_app, IH, read_chunk_parsed. done.
Qed.

Lemma dispatch_progress_only frames h :
  Forall (fun f => is_progress f = true) frames →
  let h' := foldl (fun h data => dispatch data h) h frames in
  file h' = file h ∧ isProcessing h' = isProcessing h ∧
  downloadUrl h' = downloadUrl h ∧ error h' = error h.
Proof.
  intros Hall. revert h.
  induction Hall as [|f frames Hf _ IH]; intros h; [done|].
  cbn [foldl]. destruct f; try done.
  destruct (IH (dispatch (FProgress items) h)) as (-> & -> & -> & ->). done.
Qed.




(** X12: the page ends a submission with a link or with a message, never
    with both and never with neither.  Whatever request the processing
    route served, when the page has a file selected and the chunks it
    reads deliver the frames the route wrote, [handleSubmit] leaves
    [isProcessing] false and either the handle of the complete frame in
    [downloadUrl] with no error, or the message of the error frame in
    [error] with no handle. *)
Theorem client_shows_link_or_error env request fs now b h f chunks :
  file h = Some f → fetch_process b f = Body chunks Done →
  delivered b chunks = frames_of (st_trace (POST env request fs now).2) →
  let h' := handleSubmit b h in
  isProcessing h' = false ∧ file h' = file h ∧
  ( (∃ url, last (delivered b chunks) = Some (FComplete url) ∧
            downloadUrl h' = Some url ∧ error h' = None)
  ∨ (∃ message, last (delivered b chunks) = Some (FError message) ∧
                error h' = Some message ∧ downloadUrl h' = None) ).
Proof.
  intros Hfile Hfetch Hwire h'.
  destruct (trace_shape env request fs now)
    as (before & terminal & between & after & Htrace & Hsnaps & Hterm & Hquiet & Hclose).
  assert (Hframes : frames_of (st_trace (POST env request fs now).2)
                    = frames_of before ++ [terminal]).
  { rewrite Htrace. apply (frames_of_shape before terminal between after Hquiet Hclose). }
  subst h'. unfold handleSubmit. rewrite Hfile, Hfetch, read_body_delivered.
  rewrite Hwire, Hframes, foldl_app, last_snoc.
  set (h1 := setDownloadUrl None (setError None (setIsProcessing true h))).
  destruct (dispatch_progress_only (frames_of before) h1 Hsnaps) as (Hf & _ & Hd & He).
  cbn [foldl]. destruct terminal as [items | url | message]; [done | |].
  - split; [done|]. split; [by rewrite <- Hfile|]. left. exists url.
    split; [done|]. split; [done|]. cbn. exact He.
  - split; [done|]. split; [by rewrite <- Hfile|]. right. exists message.
    split; [done|]. split; [done|]. cbn. exact Hd.
Qed.

Lemma client_shows_link_or_error_witness :
  let h' := handleSubmit PageSample.browser PageSample.selected in
  isProcessing h' = false ∧
  downloadUrl h' = Some "/api/download?id=517" ∧ error h' = None.
Proof.
  intros h'.
  assert (Hwire : delivered PageSample.browser PageSample.chunks
                  = frames_of (st_trace PageSample.run.2)) by (vm_compute; reflexivity).
  destruct (client_shows_link_or_error Sample.env
              (FormData (Some (Sheet [Sample.row (CNum 1) "Laptop"]))) Sample.host 17
              PageSample.browser PageSample.selected (mkFile "table.xlsx") PageSample.chunks
              eq_refl eq_refl Hwire) as (Hp & _ & Hcases).
  split; [exact Hp|]. vm_compute. split; reflexivity.
Defined.



End PageFacts.

(** ** What goes into the archive *)

Module ArchiveFacts.
Import Js JsString Process Shape StringFacts PathFacts NameFacts LifecycleFacts BatchFacts.
Import RoundTripFacts RowFacts.
Import ProcessFacts.

Lemma filter_nonempty_clean segs :
  Forall clean_segment segs → filter (fun s : string => s ≠ EmptyString) segs = segs.
Proof.
  induction 1 as [|x l Hx _ IH]; [done|].
  rewrite filter_cons_True by apply Hx. by rewrite IH.
Qed.

(** The segments of an absolute path of clean segments. *)
Lemma path_segments segs :
  Forall clean_segment segs →
  filter (fun s : string => s ≠ EmptyString) (split_on "/" (abs_path segs)) = segs.
Proof.
  intros Hsegs. unfold abs_path.
  change ("/" +:+ ?r) with (String "/" r). cbn [split_on]. rewrite Ascii.eqb_refl.
  rewrite filter_cons_False by naive_solver.
  destruct segs as [|x segs'].
  - reflexivity.
  - rewrite split_on_concat by done. by apply filter_nonempty_clean.
Qed.

Lemma abs_path_inj segs segs' :
  Forall clean_segment segs → Forall clean_segment segs' →
  abs_path segs = abs_path segs' → segs = segs'.
Proof.
  intros H H' Heq. rewrite <- (path_segments segs H), <- (path_segments segs' H').
  by rewrite Heq.
Qed.

Lemma ancestors_abs_path segs :
  Forall clean_segment segs →
  Fs.ancestors (abs_path segs)
  = map (fun k => abs_path (take k segs)) (seq 0 (S (Datatypes.length segs))).
Proof. intros Hsegs. unfold Fs.ancestors. by rewrite (path_segments segs Hsegs). Qed.

Lemma dirname_root : Path.dirname (abs_path []) = abs_path [].
Proof. reflexivity. Qed.

(** A path whose directory has at least as many segments as the
    directory being made is none of the directories made. *)
Lemma made_dirs_are_above segs dsegs p :
  Forall clean_segment segs → Forall clean_segment dsegs → dsegs ≠ [] →
  (Datatypes.length segs ≤ Datatypes.length dsegs)%nat →
  Path.dirname p = abs_path dsegs →
  p ∉ abs_path segs :: Fs.ancestors (abs_path segs).
Proof.
  intros Hsegs Hdsegs Hne Hlen Hdir Hin.
  assert (Hk : ∃ k, p = abs_path (take k segs)).
  { apply elem_of_cons in Hin as [-> | Hin].
    - exists (Datatypes.length segs). by rewrite firstn_all.
    - rewrite (ancestors_abs_path segs Hsegs) in Hin.
      apply list_elem_of_fmap in Hin as (k & -> & _). by exists k. }
  destruct Hk as [k ->].
  assert (Ht : Forall clean_segment (take k segs)) by (by apply Forall_take).
  assert (Htlen : (Datatypes.length (take k segs) ≤ Datatypes.length segs)%nat).
  { rewrite length_take. lia. }
  clear Hin. revert Hdir Ht Htlen. generalize (take k segs). intros t.
  destruct t as [|x t _] using rev_ind; intros Hdir Ht Htlen.
  - rewrite dirname_root in Hdir. apply abs_path_inj in Hdir; [|done..]. congruence.
  - apply Forall_app in Ht as [Ht Hx]. inversion Hx; subst.
    rewrite dirname_clean_segment in Hdir by done.
    apply abs_path_inj in Hdir; [|done..]. subst dsegs.
    rewrite List.length_app in Htlen. cbn in Htlen. lia.
Qed.

Lemma insert_dirs_lookup_other (m : gmap string Fs.Node) l p :
  p ∉ l → foldr (fun d m' => <[d := Fs.Dir]> m') m l !! p = m !! p.
Proof.
  induction l as [|d l IH]; [done|].
  intros Hp. apply not_elem_of_cons in Hp as [Hne Hp].
  cbn [foldr]. rewrite lookup_insert_ne by done. by apply IH.
Qed.

(** Making a directory leaves alone what is directly inside a directory
    with at least as many segments. *)
Lemma mkdirSync_keeps_children fs segs dsegs p :
  Forall clean_segment segs → Forall clean_segment dsegs → dsegs ≠ [] →
  (Datatypes.length segs ≤ Datatypes.length dsegs)%nat →
  Path.dirname p = abs_path dsegs →
  Fs.entries (Fs.mkdirSync fs (abs_path segs)) !! p = Fs.entries fs !! p.
Proof.
  intros Hsegs Hdsegs Hne Hlen Hdir. unfold Fs.mkdirSync. cbn [Fs.entries].
  apply insert_dirs_lookup_other. by eapply made_dirs_are_above.
Qed.

(** What [readdirSync] lists. *)
Lemma readdirSync_elem fs d names name :
  Fs.readdirSync fs d = inr names →
  name ∈ names ↔
  ∃ p node, Fs.entries fs !! p = Some node ∧ Path.dirname p = d ∧
            strip_prefix (d +:+ "/") p = Some name.
Proof.
  unfold Fs.readdirSync. destruct (Fs.is_dir fs d); [|done].
  intros [= <-]. rewrite list_elem_of_omap. split.
  - intros (p & Hp & Hname). apply elem_of_elements, elem_of_dom in Hp as [node Hnode].
    destruct (bool_decide (Path.dirname p = d)) eqn:Hd; [|done].
    apply bool_decide_eq_true in Hd. by exists p, node.
  - intros (p & node & Hnode & Hd & Hname). exists p. split.
    + apply elem_of_elements, elem_of_dom. by eexists.
    + by rewrite bool_decide_eq_true_2.
Qed.


(** The files an iteration leaves: none, or the file of the row, in the
    working directory under the id and the extension, with the row at
    success. *)
Lemma process_row_files env segs i row it s :
  Forall clean_segment segs → segs ≠ [] →
  Forall (fun c => c ≠ "/"%char) (chars (rowId_of row)) →
  st_closed s = false → st_items s !! i = Some it →
  ∃ s' final,
    process_row env (abs_path segs) i row s = (Ret tt, s') ∧
    st_closed s' = false ∧
    st_items s' = <[i := final]> (st_items s) ∧
    ( st_fs s' = st_fs s
    ∨ ∃ ext b, ext ∈ fixed_extensions ∧ item_status final = success ∧
        st_fs s' = Fs.mk (<[abs_path segs +:+ "/" +:+ rowId_of row +:+ ext := Fs.File b]>
                            (Fs.entries (st_fs s)))
                         (Fs.busy (st_fs s)) ).
Proof.
  intros Hsegs Hne Hid Hopen Hit.
  destruct (process_row_run env (abs_path segs) i row it s Hopen Hit)
    as (s' & final & evs & Hrun & Hopen' & Hitems & _ & Hcases).
  exists s', final. split; [done|]. split; [done|]. split; [done|].
  destruct Hcases as [(_ & _ & _ & Hfs & _) | [(_ & _ & _ & _ & Hfs & _) |
    (pre & u & post & a & _ & _ & Hu & _ & _ & Hwrite)]]; [by left | by left |].
  pose proof (downloadImage_extension env u a Hu) as Hext.
  assert (Hjoin : Path.join [abs_path segs; rowId_of row +:+ extension a]
                  = abs_path segs +:+ "/" +:+ rowId_of row +:+ extension a).
  { rewrite (join_clean_segment _ _ Hsegs (file_name_clean _ _ Hid Hext)).
    by apply abs_path_snoc_nonempty. }
  rewrite Hjoin in Hwrite. unfold Fs.writeFileSync in Hwrite.
  destruct (Fs.is_dir (st_fs s) _); [left; apply Hwrite|].
  destruct (Fs.is_dir (st_fs s) _).
  - destruct Hwrite as [Hfs ->]. right. by exists (extension a), (buffer a).
  - destruct (Fs.existsSync (st_fs s) _); left; apply Hwrite.
Qed.

(** Whatever is in the file system after the loop was there before it, or
    is the file of a row that ended at success. *)
Lemma rows_loop_files env segs rows : ∀ i s,
  Forall clean_segment segs → segs ≠ [] →
  Forall (fun row => Forall (fun c => c ≠ "/"%char) (chars (rowId_of row))) rows →
  st_closed s = false →
  (i + Datatypes.length rows ≤ Datatypes.length (st_items s))%nat →
  ∃ s',
    rows_loop env (abs_path segs) i rows s = (Ret tt, s') ∧
    Datatypes.length (st_items s') = Datatypes.length (st_items s) ∧
    (∀ j, (j < i)%nat → st_items s' !! j = st_items s !! j) ∧
    (∀ p node, Fs.entries (st_fs s') !! p = Some node →
       Fs.entries (st_fs s) !! p = Some node
       ∨ ∃ k row ext b,
           rows !! k = Some row ∧ ext ∈ fixed_extensions ∧
           p = abs_path segs +:+ "/" +:+ rowId_of row +:+ ext ∧ node = Fs.File b ∧
           item_status <$> st_items s' !! (i + k)%nat = Some success).
Proof.
  induction rows as [|row rows IH]; intros i s Hsegs Hne Hids Hopen Hlen.
  - exists s. split; [done|]. split; [done|]. split; [done|]. intros p node Hp. by left.
  - cbn [Datatypes.length] in Hlen.
    inversion Hids as [|? ? Hid Hrest]; subst.
    destruct (lookup_lt_is_Some_2 (st_items s) i) as [it Hit]; [lia|].
    destruct (process_row_files env segs i row it s Hsegs Hne Hid Hopen Hit)
      as (s1 & final & Hrun & Hopen1 & Hitems1 & Hfs1).
    assert (Hlen1 : Datatypes.length (st_items s1) = Datatypes.length (st_items s)).
    { by rewrite Hitems1, length_insert. }
    destruct (IH (S i) s1 Hsegs Hne Hrest Hopen1) as (s' & Hloop & Hlen' & Hsame & Hfiles).
    { rewrite Hlen1. lia. }
    exists s'. split.
    { cbn [rows_loop]. unfold mbind, M_bind. rewrite Hrun. exact Hloop. }
    split; [congruence|]. split.
    { intros j Hj. rewrite Hsame by lia. rewrite Hitems1.
      apply list_lookup_insert_ne. lia. }
    intros p node Hp.
    destruct (Hfiles p node Hp) as [Hin1 | (k & row' & ext & b & Hk & Hext & -> & -> & Hst)].
    + destruct Hfs1 as [Hfs1 | (ext & b & Hext & Hst & Hfs1)].
      * left. by rewrite <- Hfs1.
      * rewrite Hfs1 in Hin1. cbn [Fs.entries] in Hin1.
        apply lookup_insert_Some in Hin1 as [[<- <-] | [_ Hin]]; [|by left].
        right. exists 0%nat, row, ext, b. split; [done|]. split; [done|].
        split; [done|]. split; [done|].
        rewrite Nat.add_0_r, Hsame by lia. rewrite Hitems1.
        rewrite list_lookup_insert_eq by (by eapply lookup_lt_Some). cbn. by rewrite Hst.
    + right. exists (S k), row', ext, b. split; [done|]. split; [done|].
      split; [done|]. split; [done|].
      by replace (i + S k)%nat with (S i + k)%nat by lia.
Qed.

(** The tail of the [try] block once more, for the entries it hands to
    the archiver: the names [readdirSync] lists in the working directory
    once the artifact directory is made, each with its joined path. *)
Lemma finish_batch_archives env tempDir s :
  st_closed s = false →
  Fs.is_dir (st_fs s) tempDir = true →
  ∃ names r s' zip outcome evs,
    Fs.readdirSync (Fs.mkdirSync (st_fs s) (zipDir_of env)) tempDir = inr names ∧
    finish_batch env tempDir s = (r, s') ∧
    st_closed s' = false ∧
    st_items s' = st_items s ∧
    st_trace s' = st_trace s ++
      EvMkdir (zipDir_of env)
      :: EvArchive (map (fun f => (Path.join [tempDir; f], f)) names) zip outcome :: evs ∧
    (∀ entries zip' outcome', EvArchive entries zip' outcome' ∉ evs ++ catch_events r).
Proof.
  intros Hopen Hdir.
  unfold finish_batch, build_archive, Date_now, fs_mkdirSync, fs_readdirSync,
    run_archiver, fs_existsSync, fs_statSync_size, console_log, sendComplete,
    sendError, writer_write, try_catch, fs_rmSync, mbind, M_bind, mret, M_ret.
  state_simpl.
  destruct (Fs.readdirSync (Fs.mkdirSync (st_fs s) (zipDir_of env)) tempDir)
    as [e|names] eqn:Hread.
  { unfold Fs.readdirSync in Hread.
    by rewrite (mkdirSync_keeps_dirs _ _ _ Hdir) in Hread. }
  exists names.
  match goal with |- context [archiver_run env ?f ?es] =>
    destruct (archiver_run env f es) as [[b|] | e] eqn:Harch end.
  - state_simpl. rewrite existsSync_insert. state_simpl. rewrite Hopen. state_simpl.
    match goal with |- context [Fs.rmSync ?f ?p] => destruct (Fs.rmSync f p) end.
    all: eexists _, _, _, _, _; (split; [reflexivity|]); (split; [reflexivity|]); cbn.
    all: (split; [done|]); (split; [done|]).
    all: (split; [rewrite <- !List.app_assoc; cbn; reflexivity|]).
    all: intros ? ? ? Hin; decompose_list_elem_of; done.
  - state_simpl.
    match goal with |- context [Fs.existsSync ?f ?z] => destruct (Fs.existsSync f z) end.
    all: state_simpl.
    all: rewrite Hopen; state_simpl.
    all: match goal with |- context [Fs.rmSync ?f ?p] => destruct (Fs.rmSync f p) end.
    all: eexists _, _, _, _, _; (split; [reflexivity|]); (split; [reflexivity|]); cbn.
    all: (split; [done|]); (split; [done|]).
    all: (split; [rewrite <- !List.app_assoc; cbn; reflexivity|]).
    all: intros ? ? ? Hin; decompose_list_elem_of; done.
  - eexists _, _, _, _, _. split; [reflexivity|]. split; [reflexivity|]. cbn.
    split; [done|]. split; [done|].
    split; [rewrite <- !List.app_assoc; cbn; reflexivity|].
    intros ? ? ? Hin; decompose_list_elem_of; done.
Qed.

Lemma strip_dir_prefix d name : strip_prefix (d +:+ "/") (d +:+ "/" +:+ name) = Some name.
Proof. rewrite <- (app_assoc d "/" name). apply strip_prefix_app. Qed.

(** X14: the archive is made of the files of the successful rows.  With
    the temporary directory an absolute path of clean segments, no id
    holding a slash, and nothing directly inside the working directory
    before the request, every entry handed to the archiver is a file of
    the working directory named by the id and the extension of a row that
    ended at success, and every row that ended at success has such an
    entry. *)
Theorem archive_holds_the_successful_rows env tmpsegs firstRow rest fs now
        entries zipPath outcome :
  has_key "id" firstRow = true → has_key "image_name" firstRow = true →
  os_tmpdir env = abs_path tmpsegs → Forall clean_segment tmpsegs →
  let data := firstRow :: rest in
  let tempDir := tempDir_of env now in
  Forall (fun row => Forall (fun c => c ≠ "/"%char) (chars (rowId_of row))) data →
  (∀ p, Path.dirname p = tempDir → Fs.entries fs !! p = None) →
  let result := POST env (FormData (Some (Sheet data))) fs now in
  EvArchive entries zipPath outcome ∈ st_trace result.2 →
  (∀ path name, (path, name) ∈ entries →
     path = tempDir +:+ "/" +:+ name ∧
     ∃ k row ext, data !! k = Some row ∧ ext ∈ fixed_extensions ∧
                  name = rowId_of row +:+ ext ∧
                  item_status <$> st_items result.2 !! k = Some success) ∧
  (∀ k row, data !! k = Some row →
     item_status <$> st_items result.2 !! k = Some success →
     ∃ ext, ext ∈ fixed_extensions ∧
            (tempDir +:+ "/" +:+ rowId_of row +:+ ext, rowId_of row +:+ ext) ∈ entries).
Proof.
  intros Hid Hname Htmp Hclean data tempDir Hids Hfresh result Hin.
  set (segs := tmpsegs ++ ["image-download-" +:+ pretty now]).
  assert (Hsegs : Forall clean_segment segs).
  { apply Forall_app. split; [done|]. constructor; [apply working_name_clean | constructor]. }
  assert (Hne : segs ≠ []) by (subst segs; by destruct tmpsegs).
  assert (Htemp : tempDir = abs_path segs).
  { subst tempDir segs. unfold tempDir_of. rewrite Htmp.
    apply join_clean_segment; [done | apply working_name_clean]. }
  set (zsegs := tmpsegs ++ ["image-downloader-zips"]).
  assert (Hzsegs : Forall clean_segment zsegs).
  { apply Forall_app. split; [done|]. constructor; [apply zips_clean | constructor]. }
  assert (Hzip : zipDir_of env = abs_path zsegs).
  { unfold zipDir_of. rewrite Htmp. apply join_clean_segment; [done | apply zips_clean]. }
  assert (Hzlen : (Datatypes.length zsegs ≤ Datatypes.length segs)%nat).
  { subst zsegs segs. rewrite !List.length_app. cbn. lia. }
  assert (Hname_of : ∀ row ext,
            Forall (fun c => c ≠ "/"%char) (chars (rowId_of row)) → ext ∈ fixed_extensions →
            Path.join [tempDir; rowId_of row +:+ ext] = tempDir +:+ "/" +:+ rowId_of row +:+ ext ∧
            Path.dirname (tempDir +:+ "/" +:+ rowId_of row +:+ ext) = tempDir).
  { intros row ext Hrow Hext.
    pose proof (file_name_clean _ _ Hrow Hext) as Hfile.
    rewrite Htemp, (join_clean_segment _ _ Hsegs Hfile).
    rewrite <- (abs_path_snoc_nonempty segs _ Hne).
    split; [done|]. by apply dirname_clean_segment. }
  destruct (entered_loop env data fs now)
    as (s1 & evs & Hloop & Hopen1 & Ht1 & Hev & Hdir & Hlen & Hrows & _).
  fold tempDir in Hloop, Hdir, Hrows, Ht1.
  destruct (rows_loop_files env segs data 0 (loop_entry env data fs now) Hsegs Hne Hids eq_refl)
    as (s1' & Hloop' & _ & _ & Hfiles).
  { cbn. rewrite length_map. lia. }
  rewrite <- Htemp, Hloop in Hloop'. injection Hloop' as <-.
  destruct (finish_batch_archives env tempDir s1 Hopen1 Hdir)
    as (names & r2 & s2 & zip & outcome0 & evs2 & Hread & Hfin & Hopen2 & Hitems2 & Ht2 & Hno).
  destruct (POST_valid_unfold env firstRow rest fs now s1 r2 s2 Hid Hname Hloop Hfin Hopen2)
    as (_ & Htrace & Hitems & _).
  fold data in Htrace, Hitems. fold result in Htrace, Hitems.
  assert (Hentries : entries = map (fun f => (Path.join [tempDir; f], f)) names).
  { rewrite Htrace, Ht2, Ht1 in Hin.
    pose proof (row_events_no_archive evs entries zipPath outcome Hev) as Hnot.
    pose proof (Hno entries zipPath outcome) as Hnot2.
    rewrite !elem_of_app, !elem_of_cons, !elem_of_nil in Hin. rewrite elem_of_app in Hnot2.
    intuition (try discriminate; try congruence). }
  rewrite Hitems, Hitems2, Hentries.
  assert (Hchildren : ∀ p, Path.dirname p = tempDir →
            Fs.entries (Fs.mkdirSync (st_fs s1) (zipDir_of env)) !! p
            = Fs.entries (st_fs s1) !! p).
  { intros p Hp. rewrite Hzip.
    apply (mkdirSync_keeps_children _ zsegs segs); try done. by rewrite <- Htemp. }
  split.
  - intros path name Hentry.
    apply list_elem_of_fmap in Hentry as (name' & [= -> ->] & Hlisted).
    apply (readdirSync_elem _ _ _ _ Hread) in Hlisted as (p & node & Hnode & Hp & Hstrip).
    rewrite (Hchildren p Hp) in Hnode.
    destruct (Hfiles p node Hnode)
      as [Hold | (k & row & ext & b & Hk & Hext & Hpath & _ & Hst)].
    + exfalso. cbn [loop_entry st_fs set_fs] in Hold. fold tempDir in Hold.
      rewrite Htemp in Hold.
      rewrite (mkdirSync_keeps_children _ segs segs) in Hold; try done.
      * rewrite (Hfresh p Hp) in Hold. done.
      * by rewrite <- Htemp.
    + assert (Hrow : Forall (fun c => c ≠ "/"%char) (chars (rowId_of row))).
      { rewrite Forall_lookup in Hids. by eapply Hids. }
      rewrite <- Htemp in Hpath. subst p.
      rewrite strip_dir_prefix in Hstrip. injection Hstrip as <-.
      split; [apply (Hname_of row ext Hrow Hext)|].
      by exists k, row, ext.
  - intros k row Hk Hst.
    assert (Hrow : Forall (fun c => c ≠ "/"%char) (chars (rowId_of row))).
    { rewrite Forall_lookup in Hids. by eapply Hids. }
    destruct (Hrows k row Hk) as (it' & Hit' & _ & Hfile).
    rewrite Hit' in Hst. cbn in Hst. injection Hst as Hst.
    destruct (Hfile Hst) as (ext & Hext & Hisfile).
    destruct (Hname_of row ext Hrow Hext) as [Hjoin Hparent].
    exists ext. split; [done|].
    apply list_elem_of_fmap. exists (rowId_of row +:+ ext). split; [by rewrite Hjoin|].
    apply (readdirSync_elem _ _ _ _ Hread).
    rewrite Hjoin in Hisfile. unfold is_file in Hisfile.
    destruct (Fs.entries (st_fs s1) !! (tempDir +:+ "/" +:+ rowId_of row +:+ ext))
      as [node|] eqn:Hnode; [|done].
    exists (tempDir +:+ "/" +:+ rowId_of row +:+ ext), node.
    split; [by rewrite (Hchildren _ Hparent)|]. split; [done|]. apply strip_dir_prefix.
Qed.

Lemma archive_holds_the_successful_rows_witness :
  ∃ ext, ext ∈ fixed_extensions ∧
    (tempDir_of Sample.env 17 +:+ "/" +:+ "1" +:+ ext, "1" +:+ ext)
    ∈ [("/tmp/image-download-17/3.jpg", "3.jpg"); ("/tmp/image-download-17/1.png", "1.png")].
Proof.
  assert (Hclean : Forall clean_segment ["tmp"]).
  { constructor; [|constructor].
    eapply (clean_segment_intro _ "t"%char); [reflexivity | done |].
    vm_compute. repeat constructor; discriminate. }
  assert (Hids : Forall (fun row => Forall (fun c => c ≠ "/"%char) (chars (rowId_of row)))
                   Sample.three_rows).
  { repeat constructor; vm_compute; discriminate. }
  assert (Hfresh : ∀ p, Path.dirname p = tempDir_of Sample.env 17 →
                        Fs.entries Sample.host !! p = None).
  { intros p Hp. unfold Sample.host. cbn [Fs.entries].
    rewrite !lookup_insert_None. split; [split; [apply lookup_empty|]|].
    - intros <-. vm_compute in Hp. discriminate.
    - intros <-. vm_compute in Hp. discriminate. }
  assert (Hin : EvArchive
                  [("/tmp/image-download-17/3.jpg", "3.jpg");
                   ("/tmp/image-download-17/1.png", "1.png")]
                  "/tmp/image-downloader-zips/images-1017.zip"
                  (OutputClosed (Some (Sample.bytes 24)))
                ∈ st_trace (POST Sample.env (FormData (Some (Sheet Sample.three_rows)))
                                 Sample.host 17).2).
  { apply list_elem_of_In. vm_compute. repeat (first [left; reflexivity | right]). }
  destruct (archive_holds_the_successful_rows Sample.env ["tmp"]
              (Sample.row (CNum 1) "Laptop")
              [Sample.row (CNum 2) "zzqqxx"; Sample.row (CNum 3) "Mouse"]
              Sample.host 17 _ _ _ eq_refl eq_refl eq_refl Hclean Hids Hfresh Hin)
    as [_ Hsuccess].
  apply (Hsuccess 0%nat (Sample.row (CNum 1) "Laptop") eq_refl).
  vm_compute. reflexivity.
Defined.

End ArchiveFacts.
